(** * Execute Program TypeScript lessons: the lesson snippets and their results

    The repository is a set of TypeScript lessons.  Each lesson shows small
    functions together with the value the snippet evaluates to.  This
    development embeds the functions of the lessons as Rocq functions over a
    model of the JavaScript values they handle, and proves the results the
    lessons state.

    - [JS] is the part of the JavaScript runtime the snippets rely on:
      primitive values, [typeof], strict equality, [+], [*], [<],
      [Number(...)] and [Number.prototype.toString].  A JavaScript number is
      an IEEE 754 binary64 value, here a primitive [float].
    - One module per lesson file holds the functions of that lesson. *)

From Stdlib Require Import ZArith List String Ascii Bool Lia Floats.
Import ListNotations.

Local Open Scope string_scope.
Local Open Scope Z_scope.

(** ** The JavaScript runtime the snippets use *)

Module JS.

(** *** Characters and digit strings

    A string is a sequence of code units; the lessons only use code units
    below 256, so a Rocq [string] holds them. *)

Definition code (c : ascii) : Z := Z.of_N (N_of_ascii c).

Definition is_digit (c : ascii) : bool := (48 <=? code c) && (code c <=? 57).

Definition digit_value (c : ascii) : Z := code c - 48.

Definition digit_char (d : Z) : ascii := ascii_of_N (Z.to_N (d + 48)).

(** WhiteSpace and LineTerminator code units below 256:
    TAB, LF, VT, FF, CR, SP and NBSP. *)
Definition is_white_space (c : ascii) : bool :=
  let n := code c in
  ((9 <=? n) && (n <=? 13)) || (n =? 32) || (n =? 160).

(** The longest prefix of decimal digits and what follows it. *)
Fixpoint span_digits (s : string) : string * string :=
  match s with
  | String c s' =>
      if is_digit c
      then let (ds, rest) := span_digits s' in (String c ds, rest)
      else (EmptyString, s)
  | EmptyString => (EmptyString, EmptyString)
  end.

(** The mathematical value of a digit string, most significant digit first. *)
Fixpoint digits_value_from (acc : Z) (s : string) : Z :=
  match s with
  | String c s' => digits_value_from (10 * acc + digit_value c) s'
  | EmptyString => acc
  end.

Definition digits_value (s : string) : Z := digits_value_from 0 s.

Fixpoint decimal_digits_from (fuel : nat) (n : Z) (acc : string) : string :=
  match fuel with
  | O => acc
  | S fuel' =>
      let acc' := String (digit_char (n mod 10)) acc in
      if n <? 10 then acc' else decimal_digits_from fuel' (n / 10) acc'
  end.

(** The decimal digits of a non-negative integer, without leading zeros. *)
Definition decimal_digits (n : Z) : string :=
  decimal_digits_from (S (Z.to_nat (Z.log2 n))) n EmptyString.

Fixpoint zeros (n : nat) : string :=
  match n with
  | O => EmptyString
  | S n' => String "0" (zeros n')
  end.

Fixpoint take (n : nat) (s : string) : string :=
  match n, s with
  | S n', String c s' => String c (take n' s')
  | _, _ => EmptyString
  end.

Fixpoint drop (n : nat) (s : string) : string :=
  match n, s with
  | S n', String _ s' => drop n' s'
  | _, _ => s
  end.

(** *** Rounding a positive rational to a binary64 number

    [round_ratio neg N D] is the binary64 value nearest to [N / D] (ties
    to even), with the sign [neg]; [N] and [D] are positive.  The quotient
    is taken in units of [2^-1074], the spacing of the subnormal numbers,
    so that every exponent below is non-negative. *)

Definition round_ratio (neg : bool) (N D : Z) : spec_float :=
  let N' := N * 2 ^ 1074 in
  let e := Z.max (Z.log2 (N' / D) - 52) 0 in
  let den := D * 2 ^ e in
  let q := N' / den in
  let r := N' mod den in
  let m := match 2 * r ?= den with
           | Lt => q
           | Eq => if Z.even q then q else q + 1
           | Gt => q + 1
           end in
  let (m', e') := if m =? 2 ^ 53 then (2 ^ 52, e + 1) else (m, e) in
  match m' with
  | Zpos p => if e' <=? 2045 then S754_finite neg p (e' - 1074)
              else S754_infinity neg
  | _ => S754_zero neg
  end.

(** A decimal [s * 10^p] as a ratio of two positive integers. *)
Definition dec_ratio (s p : Z) : Z * Z :=
  if 0 <=? p then (s * 10 ^ p, 1) else (s, 10 ^ (- p)).

(** The binary64 value nearest to the decimal [s * 10^p], [s >= 0], with
    the sign [neg]. *)
Definition round_decimal (neg : bool) (s p : Z) : spec_float :=
  if s =? 0 then S754_zero neg
  else let (N, D) := dec_ratio s p in round_ratio neg N D.

(** *** StringToNumber: [Number(s)] for a string [s] *)

(** A string without its leading and trailing white space. *)
Fixpoint trim_start (s : string) : string :=
  match s with
  | String c s' => if is_white_space c then trim_start s' else s
  | EmptyString => EmptyString
  end.

Fixpoint trim_end (s : string) : string :=
  match s with
  | String c s' =>
      match trim_end s' with
      | EmptyString => if is_white_space c then EmptyString
                       else String c EmptyString
      | t => String c t
      end
  | EmptyString => EmptyString
  end.

Definition trim (s : string) : string := trim_end (trim_start s).

(** An optional sign: whether it is [-], and the rest. *)
Definition split_sign (s : string) : bool * string :=
  match s with
  | String "+" s' => (false, s')
  | String "-" s' => (true, s')
  | _ => (false, s)
  end.

(** ExponentPart (optional), up to the end of the string. *)
Definition parse_exponent (s : string) : option Z :=
  match s with
  | EmptyString => Some 0
  | String c s' =>
      if (Ascii.eqb c "e" || Ascii.eqb c "E")%bool then
        let (neg, s'') := split_sign s' in
        match span_digits s'' with
        | (String d ds, EmptyString) =>
            let v := digits_value (String d ds) in
            Some (if neg then - v else v)
        | _ => None
        end
      else None
  end.

(** StrUnsignedDecimalLiteral other than Infinity: the decimal
    [s * 10^p] it denotes. *)
Definition parse_decimal (s : string) : option (Z * Z) :=
  let (ip, r1) := span_digits s in
  let (fp, r2) := match r1 with
                  | String "." t => span_digits t
                  | _ => (EmptyString, r1)
                  end in
  match (ip ++ fp)%string with
  | EmptyString => None
  | ds =>
      match parse_exponent r2 with
      | Some e => Some (digits_value ds, e - Z.of_nat (String.length fp))
      | None => None
      end
  end.

(** The value of a digit in a radix up to 16, if it is one. *)
Definition radix_digit (radix : Z) (c : ascii) : option Z :=
  let n := code c in
  let d := if (48 <=? n) && (n <=? 57) then n - 48
           else if (97 <=? n) && (n <=? 102) then n - 87
           else if (65 <=? n) && (n <=? 70) then n - 55
           else radix in
  if d <? radix then Some d else None.

Fixpoint radix_value_from (radix acc : Z) (s : string) : option Z :=
  match s with
  | String c s' =>
      match radix_digit radix c with
      | Some d => radix_value_from radix (radix * acc + d) s'
      | None => None
      end
  | EmptyString => Some acc
  end.

(** The digits of a NonDecimalIntegerLiteral: at least one, all valid. *)
Definition parse_radix (radix : Z) (s : string) : option Z :=
  match s with
  | EmptyString => None
  | _ => radix_value_from radix 0 s
  end.

(** The number for the value of a NonDecimalIntegerLiteral, NaN when the
    digits are not valid. *)
Definition number_of_integer (v : option Z) : float :=
  match v with
  | Some n => SF2Prim (round_decimal false n 0)
  | None => nan
  end.

(** The radix and the digits of a string that starts as a
    NonDecimalIntegerLiteral ([0x], [0o] or [0b], in either case). *)
Definition non_decimal_prefix (t : string) : option (Z * string) :=
  match t with
  | String "0" (String c ds) =>
      if (Ascii.eqb c "x" || Ascii.eqb c "X")%bool then Some (16, ds)
      else if (Ascii.eqb c "o" || Ascii.eqb c "O")%bool then Some (8, ds)
      else if (Ascii.eqb c "b" || Ascii.eqb c "B")%bool then Some (2, ds)
      else None
  | _ => None
  end.

(** StrDecimalLiteral: an optional sign, then Infinity or decimal digits. *)
Definition decimal_literal (t : string) : float :=
  let (neg, u) := split_sign t in
  if (u =? "Infinity")%string
  then (if neg then neg_infinity else infinity)
  else match parse_decimal u with
       | Some (s, p) => SF2Prim (round_decimal neg s p)
       | None => nan
       end.

(** StringNumericLiteral: white space around nothing (the number [+0]), a
    NonDecimalIntegerLiteral or a StrDecimalLiteral; NaN for any other
    string. *)
Definition StringToNumber (str : string) : float :=
  match trim str with
  | EmptyString => zero
  | t =>
      match non_decimal_prefix t with
      | Some (radix, ds) => number_of_integer (parse_radix radix ds)
      | None => decimal_literal t
      end
  end.

(** *** Number::toString (radix 10)

    For a finite non-zero number the digits are [s], [n], [k] with
    [k >= 1], [10^(k-1) <= s < 10^k], [s * 10^(n-k)] rounding to the number,
    and [k] as small as possible; of several such [s] the one nearest to
    the number is taken, and the even one of two equally near (the choice
    ECMAScript recommends and engines make).  Below a decimal is a pair
    [(s, p)] standing for [s * 10^p], so [k] is the number of digits of [s]
    and [n = p + k]. *)

(** Whether [10^t <= N / D]. *)
Definition pow10_le (t N D : Z) : bool :=
  if 0 <=? t then D * 10 ^ t <=? N else D <=? N * 10 ^ (- t).

(** [n] raised while [10^n <= N / D], at most [fuel] times. *)
Fixpoint adjust_up (fuel : nat) (n N D : Z) : Z :=
  match fuel with
  | O => n
  | S fuel' => if pow10_le n N D then adjust_up fuel' (n + 1) N D else n
  end.

(** [n] lowered while [N / D < 10^(n-1)], at most [fuel] times. *)
Fixpoint adjust_down (fuel : nat) (n N D : Z) : Z :=
  match fuel with
  | O => n
  | S fuel' => if pow10_le (n - 1) N D then n
               else adjust_down fuel' (n - 1) N D
  end.

(** The [n] with [10^(n-1) <= N / D < 10^n]: an estimate from the binary
    logarithms, then corrected. *)
Definition decimal_exponent (N D : Z) : Z :=
  let est := ((Z.log2 N - Z.log2 D) * 1233) / 4096 in
  adjust_down 4 (adjust_up 4 est N D) N D.

(** The decimal [s * 10^p] with the trailing zeros of [s] moved into the
    exponent: [s] is not divisible by 10 in the digits of a number. *)
Fixpoint strip_zeros (fuel : nat) (s p : Z) : Z * Z :=
  match fuel with
  | O => (s, p)
  | S fuel' =>
      if (s mod 10 =? 0) && negb (s =? 0)
      then strip_zeros fuel' (s / 10) (p + 1)
      else (s, p)
  end.

Definition spec_float_eqb (x y : spec_float) : bool :=
  match x, y with
  | S754_zero a, S754_zero b => Bool.eqb a b
  | S754_infinity a, S754_infinity b => Bool.eqb a b
  | S754_nan, S754_nan => true
  | S754_finite a m e, S754_finite b m' e' =>
      Bool.eqb a b && Pos.eqb m m' && Z.eqb e e'
  | _, _ => false
  end.

(** Whether the decimal [s * 10^p] denotes the positive number [m * 2^e]. *)
Definition denotes (m : positive) (e : Z) (c : Z * Z) : bool :=
  spec_float_eqb (round_decimal false (fst c) (snd c)) (S754_finite false m e).

(** Of the two decimals [lo] and [hi] around a number, the one that denotes
    it; when both do, the nearer one. *)
Definition nearer_denoting (m : positive) (e : Z) (lo hi : Z * Z)
  (lo_nearer : bool) : option (Z * Z) :=
  match denotes m e lo, denotes m e hi with
  | true, true => Some (if lo_nearer then lo else hi)
  | true, false => Some lo
  | false, true => Some hi
  | false, false => None
  end.

(** The [k]-digit decimals next to [N / D] that denote [m * 2^e]; of two,
    the nearer one, and the even one when they are equally near. *)
Definition decimal_with (m : positive) (e : Z) (N D n k : Z)
  : option (Z * Z) :=
  let p := n - k in
  let (A, B) := if 0 <=? p then (N, D * 10 ^ p) else (N * 10 ^ (- p), D) in
  let lo_nearer := match 2 * (A mod B) ?= B with
                   | Lt => true
                   | Eq => Z.even (A / B)
                   | Gt => false
                   end in
  nearer_denoting m e (strip_zeros 20 (A / B) p) (strip_zeros 20 (A / B + 1) p)
    lo_nearer.

(** The decimal found for the first [k] of [ks] that has one. *)
Fixpoint first_decimal (f : Z -> option (Z * Z)) (ks : list Z)
  : option (Z * Z) :=
  match ks with
  | k :: ks' => match f k with
                | Some c => Some c
                | None => first_decimal f ks'
                end
  | [] => None
  end.

(** The exact decimal expansion of [m * 2^e]. *)
Definition exact_decimal (m : positive) (e : Z) : Z * Z :=
  if 0 <=? e then (Zpos m * 2 ^ e, 0) else (Zpos m * 5 ^ (- e), e).

(** The shortest decimal denoting [m * 2^e].  Seventeen digits always
    suffice for a binary64 number; the exact expansion closes the search. *)
Definition shortest_decimal (m : positive) (e : Z) : Z * Z :=
  let (N, D) := if 0 <=? e then (Zpos m * 2 ^ e, 1) else (Zpos m, 2 ^ (- e)) in
  let n := decimal_exponent N D in
  match first_decimal (decimal_with m e N D n)
          (map Z.of_nat (seq 1 17)) with
  | Some c => c
  | None => exact_decimal m e
  end.

(** The rendering of the digits [s] with [n = p + k]. *)
Definition render_decimal (s p : Z) : string :=
  let ds := decimal_digits s in
  let k := Z.of_nat (String.length ds) in
  let n := p + k in
  if (k <=? n) && (n <=? 21) then
    ds ++ zeros (Z.to_nat (n - k))
  else if (0 <? n) && (n <=? 21) then
    take (Z.to_nat n) ds ++ "." ++ drop (Z.to_nat n) ds
  else if (-6 <? n) && (n <=? 0) then
    "0." ++ zeros (Z.to_nat (- n)) ++ ds
  else
    let e := n - 1 in
    let exponent := (if e <? 0 then "-" else "+") ++ decimal_digits (Z.abs e) in
    match ds with
    | String d EmptyString => String d ("e" ++ exponent)
    | String d rest => String d ("." ++ rest ++ "e" ++ exponent)
    | EmptyString => EmptyString
    end.

(** [x.toString()] for a number [x]. *)
Definition Number_toString (x : float) : string :=
  match Prim2SF x with
  | S754_nan => "NaN"
  | S754_zero _ => "0"
  | S754_infinity neg => if neg then "-Infinity" else "Infinity"
  | S754_finite neg m e =>
      let (s, p) := shortest_decimal m e in
      (if neg then "-" else "") ++ render_decimal s p
  end.

(** *** Shapes of strings

    Predicates on strings, used to state what the parser does with what
    [Number_toString] writes. *)

Fixpoint all_digits (s : string) : bool :=
  match s with
  | String c s' => is_digit c && all_digits s'
  | EmptyString => true
  end.

(** Whether a string does not go on with a digit. *)
Definition ends_digits (s : string) : bool :=
  match s with
  | String c _ => negb (is_digit c)
  | EmptyString => true
  end.

(** Whether a string goes on neither with a digit nor with a point. *)
Definition ends_integer (s : string) : bool :=
  match s with
  | String c _ => negb (is_digit c) && negb (Ascii.eqb c ".")
  | EmptyString => true
  end.

Definition starts_digit (s : string) : bool :=
  match s with
  | String c _ => is_digit c
  | EmptyString => false
  end.

(** The code units [Number_toString] writes for a finite number. *)
Definition is_plain (c : ascii) : bool :=
  is_digit c || Ascii.eqb c "." || Ascii.eqb c "e" || Ascii.eqb c "+"
  || Ascii.eqb c "-".

Fixpoint all_plain (s : string) : bool :=
  match s with
  | String c s' => is_plain c && all_plain s'
  | EmptyString => true
  end.

(** A shift record whose mantissa is not negative. *)
Definition shr_nonneg (mrs : shr_record) : Prop := 0 <= shr_m mrs.

(** *** Values and operators *)

Definition number := float.

(** The primitive values the snippets compute with. *)
Inductive value : Type :=
| VUndefined
| VNull
| VBoolean (b : bool)
| VNumber (n : number)
| VString (s : string).

Arguments VNumber n%_float.

Definition typeof (v : value) : string :=
  match v with
  | VUndefined => "undefined"
  | VNull => "object"
  | VBoolean _ => "boolean"
  | VNumber _ => "number"
  | VString _ => "string"
  end.

Definition ToNumber (v : value) : number :=
  match v with
  | VUndefined => nan
  | VNull => zero
  | VBoolean b => if b then one else zero
  | VNumber n => n
  | VString s => StringToNumber s
  end.

Definition ToString (v : value) : string :=
  match v with
  | VUndefined => "undefined"
  | VNull => "null"
  | VBoolean b => if b then "true" else "false"
  | VNumber n => Number_toString n
  | VString s => s
  end.

(** [Number(v)], the constructor called as a function. *)
Definition Number (v : value) : number := ToNumber v.

(** [x === y]. *)
Definition strict_equals (x y : value) : bool :=
  match x, y with
  | VUndefined, VUndefined => true
  | VNull, VNull => true
  | VBoolean a, VBoolean b => Bool.eqb a b
  | VNumber a, VNumber b => (a =? b)%float
  | VString a, VString b => (a =? b)%string
  | _, _ => false
  end.

(** [x + y]: concatenation when an operand is a string, else the sum. *)
Definition add (x y : value) : value :=
  match x, y with
  | VString _, _ | _, VString _ => VString (ToString x ++ ToString y)
  | _, _ => VNumber (ToNumber x + ToNumber y)%float
  end.

(** [x * y]. *)
Definition mul (x y : value) : number := (ToNumber x * ToNumber y)%float.

(** [x === undefined] for [x] of a type [T | undefined] with [T] an object
    type; such a value is an [option T], [None] being [undefined]. *)
Definition is_undefined {T : Type} (x : option T) : bool :=
  match x with
  | None => true
  | Some _ => false
  end.

End JS.

(** ** typescript-basics/1-basic-types.ts *)

Module BasicTypes.
Import JS.

(** [let sum: number = 1 + 1; sum;] *)
Definition sum : value := add (VNumber 1) (VNumber 1).

End BasicTypes.

(** ** advanced-typescript/10-function-overloads.ts *)

Module FunctionOverloads.
Import JS.

(** The overloaded [double]: [(n: number): number] and
    [(s: string): string], with the one body below. *)
Definition double (n : value) : value :=
  if (typeof n =? "number")%string then
    VNumber (mul n (VNumber 2))
  else
    let doubled := mul (VNumber (Number n)) (VNumber 2) in
    VString (Number_toString doubled).

(** The same function without the call of [.toString()] in the string
    branch. *)
Module WithoutToString.

Definition double (n : value) : value :=
  if (typeof n =? "number")%string then
    VNumber (mul n (VNumber 2))
  else
    let doubled := mul (VNumber (Number n)) (VNumber 2) in
    VNumber doubled.

(** [const s: string = double('6'); s;] *)
Definition s : value := double (VString "6").

End WithoutToString.

(** The exercise: [pluralize] with its two overload signatures;
    [return s === undefined ? undefined : s + 's';] *)
Definition pluralize (s : value) : value :=
  if strict_equals s VUndefined then VUndefined else add s (VString "s").

Definition cats : value := pluralize (VString "cat").
Definition dogs : value := pluralize (VString "dog").
Definition anUndefined : value := pluralize VUndefined.

End FunctionOverloads.

(** ** Type predicates in practice (lesson on [isNumber] and [isString]) *)

Module TypePredicatesInPractice.
Import JS.

(** [return typeof maybeNumber === 'number';] *)
Definition isNumber (maybeNumber : value) : bool :=
  (typeof maybeNumber =? "number")%string.

(** The lesson's intentionally wrong predicate and its snippet. *)
Module Buggy.

(** [return typeof n === 'string';] *)
Definition isNumber (n : value) : bool := (typeof n =? "string")%string.

Definition n : value := VString "oh no".
Definition n2 : value := if isNumber n then n else VNumber 0.

End Buggy.

(** The exercise, as submitted. *)
Definition isString (s : value) : bool := (typeof s =? "string")%string.

Definition s1 : value := VUndefined.
Definition s2 : value := if isString s1 then s1 else VString "not a string".

End TypePredicatesInPractice.

(** ** Type predicates (lesson on [isAddress]) *)

Module TypePredicates.
Import JS.

Record Address : Type := { postalCode : string; country : string }.

Record User : Type := { name : string; address : option Address }.

(** [return address !== undefined;] *)
Definition isAddress (address : option Address) : bool :=
  negb (is_undefined address).

Definition amir : User :=
  {| name := "Amir";
     address := Some {| postalCode := "75010"; country := "France" |} |}.

(** The guarded assignment: what the variable [address] holds after the
    conditional, for a user [u]. *)
Definition guarded_address (u : User) : option Address :=
  if isAddress (address u) then address u
  else Some {| postalCode := "unknown"; country := "unknown" |}.

(** [address.postalCode]; reading a property of [undefined] throws, which
    is [None] here. *)
Definition guarded_postalCode (u : User) : option string :=
  option_map postalCode (guarded_address u).

End TypePredicates.

(** ** advanced-typescript/3-generic-constraints.ts *)

Module GenericConstraints.
Import JS.

Record User : Type := { name : string; age : number }.

(** [return users.filter((user) => user.age < limit);] *)
Definition filterBelowAge (users : list User) (limit : number) : list User :=
  filter (fun user => (age user <? limit)%float) users.

Definition users : list User :=
  [ {| name := "Amir"; age := 36%float |};
    {| name := "Gabriel"; age := 7%float |} ].

Definition youngUsers : list User := filterBelowAge users 10%float.

End GenericConstraints.

(** ** Hybrid types (lesson on [buildPath]) *)

Module HybridTypes.
Import JS.

(** [type Path = { (suffix: string): string; prefix: string }]: a function
    that also has a property. *)
Record Path : Type := { call : string -> string; prefix : string }.

(** The inner function returns the template literal
    [`/${prefix}/${suffix}`]; [path.prefix = prefix] sets the property. *)
Definition buildPath (prefix : string) : Path :=
  let path := fun suffix : string => "/" ++ prefix ++ "/" ++ suffix in
  {| call := path; prefix := prefix |}.

Definition path : Path := buildPath "courses".

End HybridTypes.

(** ** Binary64 numbers: doubling and order *)

Module Binary64.

(** The double of a binary64 number, exactly: a normal number moves to the
    next exponent (to infinity past the largest one), a subnormal number
    doubles its mantissa. *)
Definition SFdouble (x : spec_float) : spec_float :=
  match x with
  | S754_finite s m e =>
      if Zpos (digits2_pos m) =? prec
      then (if e + 1 <=? emax - prec then S754_finite s m (e + 1)
            else S754_infinity s)
      else S754_finite s m~0 e
  | _ => x
  end.

(** The place of a binary64 number other than NaN on the number line: its
    class (infinite, finite, zero, by sign), then exponent and mantissa. *)
Definition SFrank (x : spec_float) : Z * Z * Z :=
  match x with
  | S754_zero _ | S754_nan => (0, 0, 0)
  | S754_infinity s => (if s then -2 else 2, 0, 0)
  | S754_finite s m e => if s then (-1, - e, - Zpos m) else (1, e, Zpos m)
  end.

(** The lexicographic order of ranks. *)
Definition rank_lt (x y : Z * Z * Z) : Prop :=
  let '(a, b, c) := x in
  let '(a', b', c') := y in
  a < a' \/ (a = a' /\ (b < b' \/ (b = b' /\ c < c'))).

End Binary64.

(** ** advanced-typescript/5-typeof.ts *)

Module TypeofOperator.
Import JS.

(** [function double(n: number): number { return n * 2; }] *)
Definition double (n : number) : number := mul (VNumber n) (VNumber 2).

(** [const quadruple: typeof double = (n) => n * 4;] *)
Definition quadruple (n : number) : number := mul (VNumber n) (VNumber 4).

(** [const add = (x: number, y: number): OurReturnType => x + y;] *)
Definition add (x y : number) : value := JS.add (VNumber x) (VNumber y).

(** [if (typeof n === 'number') { return n * 2; } else { return n; }] *)
Definition doubleIfNumber (n : value) : value :=
  if (typeof n =? "number")%string then VNumber (mul n (VNumber 2)) else n.

End TypeofOperator.

(** ** advanced-typescript/3-generic-constraints.ts: the generic function *)

Module GenericFilter.
Import JS.

(** The constraint [T extends {age: number}]: a type whose values have a
    numeric [age]. *)
Class HasAge (T : Type) : Type := age : T -> number.

(** [return things.filter(thing => thing.age < limit);] *)
Definition filterBelowAge {T : Type} `{HasAge T}
  (things : list T) (limit : number) : list T :=
  filter (fun thing => (age thing <? limit)%float) things.

Module User.
Record User : Type := { name : string; age : number; country : string }.
End User.

Module Cat.
Record Cat : Type := { name : string; age : number; vaccinated : bool }.
End Cat.

#[global] Instance User_HasAge : HasAge User.User := User.age.
#[global] Instance Cat_HasAge : HasAge Cat.Cat := Cat.age.

(** An element of an [Array<User | Cat>], as the first attempt of the lesson
    takes them. *)
#[global] Instance UserOrCat_HasAge : HasAge (User.User + Cat.Cat) :=
  fun thing => match thing with
               | inl user => User.age user
               | inr cat => Cat.age cat
               end.

Definition allUsers : list User.User :=
  [ {| User.name := "Amir"; User.age := 36%float; User.country := "France" |};
    {| User.name := "Gabriel"; User.age := 7%float;
       User.country := "France" |} ].

Definition allCats : list Cat.Cat :=
  [ {| Cat.name := "Ms. Fluff"; Cat.age := 4%float; Cat.vaccinated := true |};
    {| Cat.name := "Wilford"; Cat.age := 17%float; Cat.vaccinated := true |} ].

End GenericFilter.

(** ** Type predicates in practice: narrowing with the correct predicate *)

Module TypePredicatesNarrowing.
Import JS.

(** [let n2: number; if (isNumber(n)) { n2 = n; } else { n2 = 0; } n2;] for
    a value [n] of type [number | undefined]. *)
Definition n2 (n : value) : value :=
  if TypePredicatesInPractice.isNumber n then n else VNumber 0.

(** A value of type [unknown]: a primitive value, or an object with its
    properties. *)
Inductive unknown : Type :=
| UPrimitive (v : value)
| UObject (properties : list (string * value)).

Definition typeof_unknown (u : unknown) : string :=
  match u with
  | UPrimitive v => typeof v
  | UObject _ => "object"
  end.

(** [function isString(s: unknown): s is string] *)
Definition isString (s : unknown) : bool :=
  (typeof_unknown s =? "string")%string.

(** [const s2: string = isString(s) ? s : 'not a string';] *)
Definition s2 (s : unknown) : unknown :=
  if isString s then s else UPrimitive (VString "not a string").

End TypePredicatesNarrowing.

(** ** Type predicates: the exercise on [isAlbum] *)

Module TypePredicatesExercise.
Import JS.

Record Album : Type := { name : string; copiesSold : number }.

(** [type Artist = {name: string, topSellingAlbum: Album | undefined}];
    the artist's [name] is [artist_name] here, beside the album's. *)
Record Artist : Type :=
  { artist_name : string; topSellingAlbum : option Album }.

(** [return maybeAlbum !== undefined;] *)
Definition isAlbum (maybeAlbum : option Album) : bool :=
  negb (is_undefined maybeAlbum).

(** What the variable [album] holds after the conditional. *)
Definition album (artist : Artist) : option Album :=
  if isAlbum (topSellingAlbum artist) then topSellingAlbum artist
  else Some {| name := "unknown"; copiesSold := 0%float |}.

End TypePredicatesExercise.

(** ** Facts about the runtime *)

Module JSFacts.
Import JS.

(** *** Binary64 numbers *)

Lemma digits2_pos_size (m : positive) : digits2_pos m = Pos.size m.
Proof. induction m; simpl; congruence. Qed.

Lemma digits2_log2 (m : positive) :
  Zpos (digits2_pos m) = Z.log2 (Zpos m) + 1.
Proof.
  rewrite digits2_pos_size.
  destruct m; simpl; lia.
Qed.

(** What [bounded] says of a mantissa and its exponent. *)
Lemma bounded_inv (m : positive) (e : Z) :
  bounded prec emax m e = true ->
  Z.max (Z.log2 (Zpos m) - 52 + e) (-1074) = e /\ e <= 971.
Proof.
  unfold bounded, canonical_mantissa, fexp, SpecFloat.emin, prec, emax.
  rewrite digits2_log2.
  intros H. apply andb_prop in H. destruct H as [H1 H2].
  apply Z.eqb_eq in H1. apply Z.leb_le in H2. lia.
Qed.

Lemma round_ratio_exact (neg : bool) (m : positive) (e N D : Z) :
  bounded prec emax m e = true ->
  0 < D ->
  N * 2 ^ 1074 = Zpos m * 2 ^ (e + 1074) * D ->
  round_ratio neg N D = S754_finite neg m e.
Proof.
  intros Hb HD HN.
  destruct (bounded_inv m e Hb) as [Hcan Hmax].
  assert (He : 0 <= e + 1074) by lia.
  pose proof (Z.log2_nonneg (Zpos m)) as Hlog.
  assert (Hm53 : Zpos m < 2 ^ 53).
  { apply Z.log2_lt_pow2; lia. }
  unfold round_ratio.
  rewrite HN.
  rewrite Z.div_mul by lia.
  rewrite Z.log2_mul_pow2 by lia.
  replace (Z.max (e + 1074 + Z.log2 (Z.pos m) - 52) 0) with (e + 1074) by lia.
  replace (Z.pos m * 2 ^ (e + 1074) * D)
    with (Z.pos m * (D * 2 ^ (e + 1074))) by ring.
  assert (Hden : 0 < D * 2 ^ (e + 1074)).
  { apply Z.mul_pos_pos; [lia|]. apply Z.pow_pos_nonneg; lia. }
  rewrite Z.div_mul by lia.
  rewrite Z.mod_mul by lia.
  replace (2 * 0 ?= D * 2 ^ (e + 1074)) with Lt
    by (symmetry; apply Z.compare_lt_iff; lia).
  replace (Z.pos m =? 2 ^ 53) with false
    by (symmetry; apply Z.eqb_neq; lia).
  replace (e + 1074 <=? 2045) with true by (symmetry; apply Z.leb_le; lia).
  f_equal. lia.
Qed.


Lemma round_decimal_exact (neg : bool) (m : positive) (e : Z) :
  bounded prec emax m e = true ->
  round_decimal neg (fst (exact_decimal m e)) (snd (exact_decimal m e))
  = S754_finite neg m e.
Proof.
  intros Hb.
  destruct (bounded_inv m e Hb) as [Hcan Hmax].
  unfold exact_decimal, round_decimal, dec_ratio.
  destruct (Z.leb_spec 0 e) as [He|He]; cbn [fst snd].
  - assert (Hpos : 0 < Zpos m * 2 ^ e).
    { apply Z.mul_pos_pos; [lia|]. apply Z.pow_pos_nonneg; lia. }
    replace (Zpos m * 2 ^ e =? 0) with false
      by (symmetry; apply Z.eqb_neq; lia).
    change (0 <=? 0) with true. cbv iota.
    apply round_ratio_exact; [assumption|lia|].
    rewrite Z.pow_add_r by lia.
    rewrite Z.pow_0_r, !Z.mul_1_r, Z.mul_assoc. reflexivity.
  - assert (Hpos : 0 < Zpos m * 5 ^ (- e)).
    { apply Z.mul_pos_pos; [lia|]. apply Z.pow_pos_nonneg; lia. }
    replace (Zpos m * 5 ^ (- e) =? 0) with false
      by (symmetry; apply Z.eqb_neq; lia).
    replace (0 <=? e) with false by (symmetry; apply Z.leb_gt; lia).
    apply round_ratio_exact; [assumption| apply Z.pow_pos_nonneg; lia |].
    replace (10 ^ (- e)) with (2 ^ (- e) * 5 ^ (- e))
      by (rewrite <- Z.pow_mul_l; reflexivity).
    assert (H2 : 2 ^ 1074 = 2 ^ (e + 1074) * 2 ^ (- e)).
    { rewrite <- Z.pow_add_r by lia. f_equal. lia. }
    rewrite H2. 
    generalize (2 ^ (e + 1074)) (2 ^ (- e)) (5 ^ (- e)). intros. ring.
Qed.

(** The sign plays no part in the rounding. *)
Lemma round_ratio_sign (neg : bool) (m : positive) (e N D : Z) :
  round_ratio false N D = S754_finite false m e ->
  round_ratio neg N D = S754_finite neg m e.
Proof.
  unfold round_ratio.
  destruct (if _ =? 2 ^ 53 then _ else _) as [m' e'].
  destruct m'; try discriminate.
  destruct (e' <=? 2045); try discriminate.
  intros H. injection H as -> ->. reflexivity.
Qed.

Lemma round_ratio_finite_pos (neg neg' : bool) (m : positive) (e N D : Z) :
  0 < D ->
  round_ratio neg N D = S754_finite neg' m e -> 0 < N.
Proof.
  intros HD H.
  destruct (Z.lt_ge_cases 0 N) as [|HN]; [assumption|exfalso].
  revert H. unfold round_ratio.
  set (N' := N * 2 ^ 1074).
  set (e0 := Z.max (Z.log2 (N' / D) - 52) 0).
  set (den := D * 2 ^ e0).
  assert (Hp : 0 < 2 ^ 1074) by (apply Z.pow_pos_nonneg; lia).
  assert (HN' : N' <= 0) by (unfold N'; apply Z.mul_nonpos_nonneg; lia).
  assert (Hden : 0 < den).
  { unfold den. apply Z.mul_pos_pos; [lia|].
    apply Z.pow_pos_nonneg; unfold e0; lia. }
  assert (Hq : N' / den <= 0).
  { apply Z.div_le_upper_bound; lia. }
  pose proof (Z.mod_pos_bound N' den Hden) as Hr.
  pose proof (Z.div_mod N' den ltac:(lia)) as Hdm.
  set (mm := match 2 * (N' mod den) ?= den with
       | Eq => if Z.even (N' / den) then N' / den else N' / den + 1
       | Lt => N' / den
       | Gt => N' / den + 1
       end).
  assert (Hmm : mm <= 0).
  { unfold mm.
    destruct (Z.compare_spec (2 * (N' mod den)) den) as [Heq|Hlt|Hgt].
    - destruct (Z.even (N' / den)); [lia|]. nia.
    - lia.
    - nia. }
  assert (H53 : 0 < 2 ^ 53) by (apply Z.pow_pos_nonneg; lia).
  replace (mm =? 2 ^ 53) with false by (symmetry; apply Z.eqb_neq; lia).
  destruct mm; try discriminate. lia.
Qed.

Lemma round_decimal_finite_pos (neg neg' : bool) (m : positive) (e s p : Z) :
  round_decimal neg s p = S754_finite neg' m e -> 0 < s.
Proof.
  unfold round_decimal, dec_ratio.
  destruct (Z.eqb_spec s 0) as [|Hs]; [discriminate|].
  destruct (Z.leb_spec 0 p) as [Hp|Hp]; intros H.
  - apply round_ratio_finite_pos in H; [|lia].
    assert (0 < 10 ^ p) by (apply Z.pow_pos_nonneg; lia). nia.
  - apply round_ratio_finite_pos in H; [assumption|].
    apply Z.pow_pos_nonneg; lia.
Qed.

Lemma round_decimal_sign (neg : bool) (m : positive) (e s p : Z) :
  round_decimal false s p = S754_finite false m e ->
  round_decimal neg s p = S754_finite neg m e.
Proof.
  unfold round_decimal.
  destruct (s =? 0); [discriminate|].
  destruct (dec_ratio s p) as [N D]. apply round_ratio_sign.
Qed.

Lemma spec_float_eqb_eq (x y : spec_float) :
  spec_float_eqb x y = true -> x = y.
Proof.
  destruct x as [a|a| |a m e], y as [b|b| |b m' e']; simpl; try discriminate;
    try reflexivity.
  - intros H. apply Bool.eqb_prop in H. now subst.
  - intros H. apply Bool.eqb_prop in H. now subst.
  - intros H. apply andb_prop in H. destruct H as [H He].
    apply andb_prop in H. destruct H as [Hs Hm].
    apply Bool.eqb_prop in Hs. apply Pos.eqb_eq in Hm. apply Z.eqb_eq in He.
    now subst.
Qed.

Lemma spec_float_eqb_refl (x : spec_float) : spec_float_eqb x x = true.
Proof.
  destruct x as [a|a| |a m e]; simpl; try reflexivity;
    rewrite ?Bool.eqb_reflx, ?Pos.eqb_refl, ?Z.eqb_refl; reflexivity.
Qed.

(** *** The shortest decimal denotes the number *)

Lemma nearer_denoting_denotes (m : positive) (e : Z) (lo hi : Z * Z)
  (lo_nearer : bool) (c : Z * Z) :
  nearer_denoting m e lo hi lo_nearer = Some c -> denotes m e c = true.
Proof.
  unfold nearer_denoting.
  destruct (denotes m e lo) eqn:Hlo; destruct (denotes m e hi) eqn:Hhi;
    intros H; try discriminate; injection H as <-; try assumption.
  now destruct lo_nearer.
Qed.

Lemma decimal_with_denotes (m : positive) (e N D n k : Z) (c : Z * Z) :
  decimal_with m e N D n k = Some c -> denotes m e c = true.
Proof.
  unfold decimal_with.
  destruct (if 0 <=? n - k then _ else _) as [A B].
  apply nearer_denoting_denotes.
Qed.

Lemma first_decimal_some (f : Z -> option (Z * Z)) (ks : list Z) (c : Z * Z) :
  first_decimal f ks = Some c -> exists k, f k = Some c.
Proof.
  induction ks as [|k ks IH]; simpl; [discriminate|].
  destruct (f k) as [c'|] eqn:Hk.
  - intros H. injection H as <-. now exists k.
  - exact IH.
Qed.

Lemma shortest_decimal_denotes (m : positive) (e : Z) :
  bounded prec emax m e = true ->
  denotes m e (shortest_decimal m e) = true.
Proof.
  intros Hb. unfold shortest_decimal.
  destruct (if 0 <=? e then _ else _) as [N D].
  destruct (first_decimal _ _) as [c|] eqn:Hfirst.
  - apply first_decimal_some in Hfirst. destruct Hfirst as [k Hk].
    now apply decimal_with_denotes in Hk.
  - unfold denotes. rewrite round_decimal_exact by assumption.
    apply spec_float_eqb_refl.
Qed.


(** *** Digit strings *)

Lemma digit_char_is_digit (d : Z) :
  0 <= d < 10 ->
  is_digit (digit_char d) = true /\ digit_value (digit_char d) = d.
Proof.
  intros H.
  assert (Hd : d = 0 \/ d = 1 \/ d = 2 \/ d = 3 \/ d = 4 \/ d = 5 \/ d = 6
               \/ d = 7 \/ d = 8 \/ d = 9) by lia.
  repeat (destruct Hd as [->|Hd]; [now split|]). now subst.
Qed.

Lemma length_app (a b : string) :
  String.length (a ++ b) = (String.length a + String.length b)%nat.
Proof. induction a as [|c a IH]; simpl; congruence. Qed.

Lemma app_assoc (a b c : string) : ((a ++ b) ++ c = a ++ (b ++ c))%string.
Proof. induction a as [|x a IH]; simpl; congruence. Qed.

Lemma app_empty_r (a : string) : (a ++ "")%string = a.
Proof. induction a as [|x a IH]; simpl; congruence. Qed.

Lemma all_digits_app (a b : string) :
  all_digits (a ++ b) = all_digits a && all_digits b.
Proof.
  induction a as [|c a IH]; simpl; [reflexivity|].
  now rewrite IH, andb_assoc.
Qed.

Lemma digits_value_from_acc (s : string) (acc : Z) :
  digits_value_from acc s
  = acc * 10 ^ Z.of_nat (String.length s) + digits_value s.
Proof.
  unfold digits_value. revert acc.
  induction s as [|c s IH]; intros acc.
  - simpl. lia.
  - cbn [digits_value_from String.length].
    rewrite IH, (IH (10 * 0 + digit_value c)).
    rewrite Nat2Z.inj_succ, Z.pow_succ_r by lia.
    generalize (10 ^ Z.of_nat (String.length s)). intros. ring.
Qed.

Lemma digits_value_from_app (a b : string) (acc : Z) :
  digits_value_from acc (a ++ b)
  = digits_value_from (digits_value_from acc a) b.
Proof.
  revert acc. induction a as [|c a IH]; intros acc; simpl; [reflexivity|].
  apply IH.
Qed.

Lemma digits_value_app (a b : string) :
  digits_value (a ++ b)
  = digits_value a * 10 ^ Z.of_nat (String.length b) + digits_value b.
Proof.
  unfold digits_value at 1.
  rewrite digits_value_from_app, digits_value_from_acc. reflexivity.
Qed.

Lemma zeros_digits (n : nat) :
  all_digits (zeros n) = true /\ digits_value (zeros n) = 0
  /\ String.length (zeros n) = n.
Proof.
  induction n as [|n (IH1 & IH2 & IH3)]; [now repeat split|].
  repeat split.
  - simpl. exact IH1.
  - unfold digits_value in *. simpl. exact IH2.
  - simpl. now rewrite IH3.
Qed.

Lemma take_drop (n : nat) (s : string) : (take n s ++ drop n s)%string = s.
Proof.
  revert s. induction n as [|n IH]; intros [|c s]; simpl; try reflexivity.
  now rewrite IH.
Qed.

Lemma all_digits_take (n : nat) (s : string) :
  all_digits s = true -> all_digits (take n s) = true.
Proof.
  revert s. induction n as [|n IH]; intros [|c s]; simpl; try reflexivity.
  intros H. apply andb_prop in H. destruct H as [Hc Hs].
  now rewrite Hc, IH.
Qed.

Lemma all_digits_drop (n : nat) (s : string) :
  all_digits s = true -> all_digits (drop n s) = true.
Proof.
  revert s. induction n as [|n IH]; intros [|c s]; simpl; try reflexivity;
    try (intros H; exact H).
  intros H. apply andb_prop in H. destruct H as [Hc Hs]. now apply IH.
Qed.

Lemma length_drop (n : nat) (s : string) :
  (n <= String.length s)%nat ->
  String.length (drop n s) = (String.length s - n)%nat.
Proof.
  revert s. induction n as [|n IH]; intros [|c s]; simpl; try reflexivity;
    try lia.
  intros H. apply IH. lia.
Qed.

Lemma span_digits_app (ds rest : string) :
  all_digits ds = true -> ends_digits rest = true ->
  span_digits (ds ++ rest) = (ds, rest).
Proof.
  intros Hds Hrest. induction ds as [|c ds IH]; simpl.
  - destruct rest as [|c rest]; [reflexivity|]. simpl in *.
    now destruct (is_digit c).
  - simpl in Hds. apply andb_prop in Hds. destruct Hds as [Hc Hds].
    now rewrite Hc, IH.
Qed.

Lemma span_digits_all (ds : string) :
  all_digits ds = true -> span_digits ds = (ds, EmptyString).
Proof.
  intros H. rewrite <- (app_empty_r ds) at 1. now apply span_digits_app.
Qed.

Lemma decimal_digits_from_spec (fuel : nat) (n : Z) (acc : string) :
  0 <= n < 2 ^ Z.of_nat fuel -> all_digits acc = true ->
  let ds := decimal_digits_from fuel n acc in
  all_digits ds = true /\
  digits_value ds = n * 10 ^ Z.of_nat (String.length acc) + digits_value acc.
Proof.
  revert n acc. induction fuel as [|fuel IH]; intros n acc Hn Hacc.
  - simpl in *. split; [assumption|]. assert (n = 0) by lia. subst. lia.
  - cbn [decimal_digits_from].
    assert (Hmod : 0 <= n mod 10 < 10) by (apply Z.mod_pos_bound; lia).
    destruct (digit_char_is_digit (n mod 10) Hmod) as [Hd Hv].
    assert (Hacc' : all_digits (String (digit_char (n mod 10)) acc) = true).
    { simpl. now rewrite Hd, Hacc. }
    assert (Hval : digits_value (String (digit_char (n mod 10)) acc)
                   = n mod 10 * 10 ^ Z.of_nat (String.length acc)
                     + digits_value acc).
    { unfold digits_value at 1. cbn [digits_value_from].
      rewrite digits_value_from_acc, Hv. f_equal. }
    destruct (Z.ltb_spec n 10) as [Hlt|Hge].
    + cbv zeta. split; [assumption|]. rewrite Hval.
      rewrite Z.mod_small by lia. reflexivity.
    + assert (Hdiv : 0 <= n / 10 < 2 ^ Z.of_nat fuel).
      { rewrite Nat2Z.inj_succ, Z.pow_succ_r in Hn by lia.
        split; [apply Z.div_pos; lia|].
        apply Z.div_lt_upper_bound; lia. }
      destruct (IH (n / 10) _ Hdiv Hacc') as [H1 H2].
      cbv zeta. split; [assumption|]. rewrite H2, Hval.
      cbn [String.length]. rewrite Nat2Z.inj_succ, Z.pow_succ_r by lia.
      pose proof (Z.div_mod n 10 ltac:(lia)) as Hdm.
      generalize dependent (10 ^ Z.of_nat (String.length acc)).
      intros. rewrite Hdm at 3. ring.
Qed.

Lemma decimal_digits_spec (n : Z) :
  0 <= n ->
  all_digits (decimal_digits n) = true /\ digits_value (decimal_digits n) = n.
Proof.
  intros Hn. unfold decimal_digits.
  assert (Hfuel : 0 <= n < 2 ^ Z.of_nat (S (Z.to_nat (Z.log2 n)))).
  { split; [assumption|].
    rewrite Nat2Z.inj_succ, Z2Nat.id by apply Z.log2_nonneg.
    destruct (Z.eq_dec n 0) as [->|]; [reflexivity|].
    apply Z.log2_spec. lia. }
  destruct (decimal_digits_from_spec _ n EmptyString Hfuel eq_refl) as [H1 H2].
  split; [assumption|]. rewrite H2. simpl. unfold digits_value. simpl. lia.
Qed.

Lemma decimal_digits_from_nonempty (fuel : nat) (n : Z) (acc : string) :
  acc <> EmptyString -> decimal_digits_from fuel n acc <> EmptyString.
Proof.
  revert n acc. induction fuel as [|fuel IH]; intros n acc Hacc; simpl.
  - assumption.
  - destruct (n <? 10); [discriminate|]. apply IH. discriminate.
Qed.

Lemma decimal_digits_nonempty (n : Z) : decimal_digits n <> EmptyString.
Proof.
  unfold decimal_digits. cbn [decimal_digits_from].
  destruct (n <? 10); [discriminate|].
  apply decimal_digits_from_nonempty. discriminate.
Qed.

(** *** Parsing what [render_decimal] writes *)

Lemma split_sign_digit (c : ascii) (s : string) :
  is_digit c = true -> split_sign (String c s) = (false, String c s).
Proof.
  destruct c as [[] [] [] [] [] [] [] []]; try discriminate; reflexivity.
Qed.

Lemma parse_exponent_rendered (e : Z) :
  parse_exponent
    ("e" ++ (if e <? 0 then "-" else "+") ++ decimal_digits (Z.abs e))
  = Some e.
Proof.
  destruct (decimal_digits_spec (Z.abs e) (Z.abs_nonneg e)) as [Hd Hv].
  pose proof (decimal_digits_nonempty (Z.abs e)) as Hne.
  cbn [append parse_exponent]. change (Ascii.eqb "e" "e") with true.
  cbn [orb].
  destruct (Z.ltb_spec e 0) as [He|He]; cbn [append split_sign];
    rewrite (span_digits_all _ Hd);
    destruct (decimal_digits (Z.abs e)) as [|d ds] eqn:Hds;
    try (now elim Hne); rewrite Hv; f_equal; lia.
Qed.

Lemma parse_decimal_fraction (ip fp ex : string) (e : Z) :
  all_digits ip = true -> all_digits fp = true ->
  (ip ++ fp)%string <> EmptyString ->
  ends_digits ex = true -> parse_exponent ex = Some e ->
  parse_decimal (ip ++ "." ++ fp ++ ex)
  = Some (digits_value (ip ++ fp), e - Z.of_nat (String.length fp)).
Proof.
  intros Hip Hfp Hne Hex He. unfold parse_decimal.
  rewrite (span_digits_app ip) by (assumption || reflexivity).
  cbn [append]. rewrite (span_digits_app fp) by assumption.
  destruct (ip ++ fp)%string as [|c t] eqn:Hds; [now elim Hne|].
  now rewrite He.
Qed.

Lemma parse_decimal_integer (ip ex : string) (e : Z) :
  all_digits ip = true -> ip <> EmptyString ->
  ends_integer ex = true -> parse_exponent ex = Some e ->
  parse_decimal (ip ++ ex) = Some (digits_value ip, e).
Proof.
  intros Hip Hne Hex He. unfold parse_decimal.
  assert (Hends : ends_digits ex = true).
  { destruct ex as [|c ex]; [reflexivity|]. simpl in *.
    now destruct (is_digit c). }
  rewrite (span_digits_app ip) by assumption.
  assert (Hfp : match ex with
                | String "." t => span_digits t
                | _ => (EmptyString, ex)
                end = (EmptyString, ex)).
  { destruct ex as [|c ex]; [reflexivity|]. simpl in Hex.
    apply andb_prop in Hex. destruct Hex as [_ Hc].
    destruct c as [[] [] [] [] [] [] [] []]; try reflexivity; discriminate. }
  rewrite Hfp. rewrite app_empty_r.
  destruct ip as [|c t]; [now elim Hne|].
  rewrite He. cbn [String.length Z.of_nat]. now rewrite Z.sub_0_r.
Qed.

Lemma all_plain_app (a b : string) :
  all_plain (a ++ b) = all_plain a && all_plain b.
Proof.
  induction a as [|c a IH]; simpl; [reflexivity|].
  now rewrite IH, andb_assoc.
Qed.

Lemma all_digits_plain (s : string) : all_digits s = true -> all_plain s = true.
Proof.
  induction s as [|c s IH]; simpl; [reflexivity|].
  intros H. apply andb_prop in H. destruct H as [Hc Hs].
  unfold is_plain. now rewrite Hc, IH.
Qed.

Lemma starts_digit_app (a b : string) :
  starts_digit a = true -> starts_digit (a ++ b) = true.
Proof. destruct a; [discriminate|]. intros H; exact H. Qed.

Lemma all_digits_starts (s : string) :
  all_digits s = true -> s <> EmptyString -> starts_digit s = true.
Proof.
  destruct s as [|c s]; [intros _ H; now elim H|]. simpl.
  intros H _. now apply andb_prop in H.
Qed.

Lemma starts_digit_take (n : nat) (s : string) :
  (0 < n)%nat -> starts_digit s = true -> starts_digit (take n s) = true.
Proof.
  destruct n as [|n]; [lia|]. destruct s; [discriminate|]. intros _ H; exact H.
Qed.

Lemma round_decimal_shift (neg : bool) (s p : Z) :
  0 < s -> 0 <= p -> round_decimal neg (s * 10 ^ p) 0 = round_decimal neg s p.
Proof.
  intros Hs Hp. unfold round_decimal, dec_ratio.
  assert (H10 : 0 < 10 ^ p) by (apply Z.pow_pos_nonneg; lia).
  replace (s * 10 ^ p =? 0) with false by (symmetry; apply Z.eqb_neq; nia).
  replace (s =? 0) with false by (symmetry; apply Z.eqb_neq; lia).
  change (0 <=? 0) with true. cbv iota.
  replace (0 <=? p) with true by (symmetry; apply Z.leb_le; lia).
  rewrite Z.pow_0_r, Z.mul_1_r. reflexivity.
Qed.

(** What [render_decimal] writes reads back as the same decimal. *)
Lemma render_decimal_parse (s p : Z) :
  0 < s ->
  all_plain (render_decimal s p) = true /\
  starts_digit (render_decimal s p) = true /\
  exists s' p',
    parse_decimal (render_decimal s p) = Some (s', p') /\
    forall neg, round_decimal neg s' p' = round_decimal neg s p.
Proof.
  intros Hs. unfold render_decimal.
  destruct (decimal_digits_spec s ltac:(lia)) as [Hd Hv].
  pose proof (decimal_digits_nonempty s) as Hne.
  pose proof (all_digits_starts _ Hd Hne) as Hstart.
  pose proof (all_digits_plain _ Hd) as Hplain.
  set (ds := decimal_digits s) in *.
  set (k := Z.of_nat (String.length ds)).
  assert (Hk : 0 < k).
  { unfold k. destruct ds; [now elim Hne|]. simpl String.length. lia. }
  set (n := p + k).
  destruct (andb (k <=? n) (n <=? 21)) eqn:H1.
  { (* digits, then zeros *)
    apply andb_prop in H1. destruct H1 as [H1 _]. apply Z.leb_le in H1.
    destruct (zeros_digits (Z.to_nat (n - k))) as (Hz1 & Hz2 & Hz3).
    assert (Hall : all_digits (ds ++ zeros (Z.to_nat (n - k))) = true).
    { now rewrite all_digits_app, Hd, Hz1. }
    split; [now apply all_digits_plain|].
    split; [now apply starts_digit_app|].
    exists (s * 10 ^ p), 0. split.
    - rewrite <- (app_empty_r (ds ++ zeros _)).
      rewrite (parse_decimal_integer _ EmptyString 0); try reflexivity;
        try assumption.
      + rewrite digits_value_app, Hv, Hz2, Hz3, Z2Nat.id by lia.
        replace (n - k) with p by (unfold n; lia). now rewrite Z.add_0_r.
      + destruct ds; [now elim Hne|discriminate].
    - intros neg. apply round_decimal_shift; try assumption.
      unfold n in H1; lia. }
  destruct (andb (0 <? n) (n <=? 21)) eqn:H2.
  { (* digits, a point, digits *)
    apply andb_prop in H2. destruct H2 as [H2 H2'].
    apply Z.ltb_lt in H2. apply Z.leb_le in H2'.
    assert (Hnk : n < k).
    { destruct (Z.leb_spec k n) as [Hle|]; [|assumption].
      rewrite (proj2 (Z.leb_le n 21) H2') in H1. discriminate. }
    pose proof (all_digits_take (Z.to_nat n) _ Hd) as Ht.
    pose proof (all_digits_drop (Z.to_nat n) _ Hd) as Hdr.
    split.
    { rewrite !all_plain_app. rewrite (all_digits_plain _ Ht).
      now rewrite (all_digits_plain _ Hdr). }
    split.
    { apply starts_digit_app. apply starts_digit_take; [lia|assumption]. }
    exists s, p. split; [|reflexivity].
    rewrite <- (app_empty_r (drop _ _)).
    rewrite (parse_decimal_fraction _ _ EmptyString 0); try reflexivity;
      try assumption.
    - rewrite take_drop, Hv. f_equal. f_equal.
      rewrite length_drop by (unfold k in Hnk; lia).
      unfold n, k in *. lia.
    - rewrite take_drop. exact Hne. }
  destruct (andb (-6 <? n) (n <=? 0)) eqn:H3.
  { (* 0, a point, zeros, digits *)
    apply andb_prop in H3. destruct H3 as [H3 H3'].
    apply Z.ltb_lt in H3. apply Z.leb_le in H3'.
    destruct (zeros_digits (Z.to_nat (- n))) as (Hz1 & Hz2 & Hz3).
    split.
    { change "0."%string with ("0" ++ ".")%string.
      rewrite !all_plain_app, (all_digits_plain _ Hz1), Hplain. reflexivity. }
    split; [reflexivity|].
    exists s, p. split; [|reflexivity].
    change ("0." ++ zeros (Z.to_nat (- n)) ++ ds)%string
      with ("0" ++ "." ++ zeros (Z.to_nat (- n)) ++ ds)%string.
    rewrite <- (app_empty_r ds) at 1.
    rewrite <- (app_assoc (zeros _) ds EmptyString).
    rewrite (parse_decimal_fraction "0" _ EmptyString 0); try reflexivity.
    - rewrite digits_value_app. change (digits_value "0") with 0.
      rewrite digits_value_app, Hz2, Hv, !length_app, Hz3.
      f_equal. f_equal; unfold n, k in *; lia.
    - now rewrite all_digits_app, Hz1, Hd.
    - discriminate. }
  (* exponent notation *)
  set (e := n - 1).
  destruct (decimal_digits_spec (Z.abs e) (Z.abs_nonneg e)) as [Hed Hev].
  pose proof (parse_exponent_rendered e) as Hexp.
  set (sign := if e <? 0 then "-"%string else "+"%string) in *.
  assert (Hsign : all_plain sign = true)
    by (unfold sign; now destruct (e <? 0)).
  destruct ds as [|d rest] eqn:Hds; [now elim Hne|].
  assert (Hdd : is_digit d = true) by exact Hstart.
  simpl in Hd. apply andb_prop in Hd. destruct Hd as [_ Hrest].
  destruct rest as [|d' rest'].
  - split.
    { cbn [all_plain]. unfold is_plain at 1. rewrite Hdd. cbn [orb andb].
      change (all_plain ("e" ++ (sign ++ decimal_digits (Z.abs e))) = true).
      rewrite !all_plain_app, Hsign, (all_digits_plain _ Hed). reflexivity. }
    split; [exact Hdd|].
    exists s, p. split; [|reflexivity].
    change (String d ("e" ++ sign ++ decimal_digits (Z.abs e)))
      with (String d EmptyString
            ++ ("e" ++ sign ++ decimal_digits (Z.abs e)))%string.
    rewrite (parse_decimal_integer _ _ e); try reflexivity; try assumption;
      try discriminate; try (simpl; now rewrite Hdd).
    rewrite Hv. f_equal. f_equal. unfold e, n, k. simpl String.length. lia.
  - split.
    { cbn [all_plain]. unfold is_plain at 1. rewrite Hdd. cbn [orb andb].
      change (all_plain
                ("." ++ (String d' rest'
                         ++ ("e" ++ (sign ++ decimal_digits (Z.abs e)))))
              = true).
      rewrite !all_plain_app, Hsign, (all_digits_plain _ Hed),
        (all_digits_plain _ Hrest). reflexivity. }
    split; [exact Hdd|].
    exists s, p. split; [|reflexivity].
    change (String d ("." ++ String d' rest' ++ "e" ++ sign
                      ++ decimal_digits (Z.abs e)))
      with (String d EmptyString ++ "." ++ String d' rest'
            ++ ("e" ++ sign ++ decimal_digits (Z.abs e)))%string.
    rewrite (parse_decimal_fraction _ _ _ e); try reflexivity; try assumption;
      try discriminate; try (simpl; now rewrite Hdd).
    cbn [append]. rewrite Hv. f_equal. f_equal.
    unfold e, n, k. cbn [String.length]. lia.
Qed.


(** *** [Number] after [toString] *)

Lemma is_plain_not_white_space (c : ascii) :
  is_plain c = true -> is_white_space c = false.
Proof.
  destruct c as [[] [] [] [] [] [] [] []]; try reflexivity; discriminate.
Qed.

Lemma trim_start_plain (s : string) : all_plain s = true -> trim_start s = s.
Proof.
  destruct s as [|c s]; [reflexivity|]. simpl. intros H.
  apply andb_prop in H. destruct H as [Hc _].
  now rewrite (is_plain_not_white_space c Hc).
Qed.

Lemma trim_end_plain (s : string) : all_plain s = true -> trim_end s = s.
Proof.
  induction s as [|c s IH]; [reflexivity|]. simpl. intros H.
  apply andb_prop in H. destruct H as [Hc Hs].
  rewrite (IH Hs), (is_plain_not_white_space c Hc). now destruct s.
Qed.

Lemma trim_plain (s : string) : all_plain s = true -> trim s = s.
Proof.
  intros H. unfold trim. rewrite (trim_start_plain s H).
  now apply trim_end_plain.
Qed.

Lemma non_decimal_prefix_plain (t : string) :
  all_plain t = true -> non_decimal_prefix t = None.
Proof.
  destruct t as [|a [|c t]]; try reflexivity.
  - now destruct a as [[] [] [] [] [] [] [] []].
  - intros H. simpl in H. apply andb_prop in H. destruct H as [_ H].
    apply andb_prop in H. destruct H as [Hc _].
    destruct a as [[] [] [] [] [] [] [] []]; try reflexivity.
    destruct c as [[] [] [] [] [] [] [] []]; try reflexivity; discriminate.
Qed.

Lemma starts_digit_not_Infinity (r : string) :
  starts_digit r = true -> (r =? "Infinity")%string = false.
Proof.
  destruct r as [|c r]; [discriminate|]. simpl.
  destruct c as [[] [] [] [] [] [] [] []]; try reflexivity; discriminate.
Qed.

Lemma decimal_literal_rendered (neg : bool) (r : string) (s p : Z) :
  starts_digit r = true -> parse_decimal r = Some (s, p) ->
  decimal_literal ((if neg then "-" else "") ++ r)
  = SF2Prim (round_decimal neg s p).
Proof.
  intros Hstart Hparse. unfold decimal_literal.
  assert (Hsplit : split_sign ((if neg then "-" else "") ++ r) = (neg, r)).
  { destruct neg; [reflexivity|]. destruct r as [|c r]; [discriminate|].
    now apply split_sign_digit. }
  rewrite Hsplit, (starts_digit_not_Infinity r Hstart), Hparse. reflexivity.
Qed.

Lemma StringToNumber_plain (t : string) :
  all_plain t = true -> t <> EmptyString ->
  StringToNumber t = decimal_literal t.
Proof.
  intros Hplain Hne. unfold StringToNumber.
  rewrite (trim_plain t Hplain).
  pose proof (non_decimal_prefix_plain t Hplain) as Hprefix.
  destruct t; [now elim Hne|]. now rewrite Hprefix.
Qed.

(** [Number(x.toString())] is [x] again, but for [-0], written '0'. *)
Theorem StringToNumber_toString (x : float) :
  StringToNumber (Number_toString x)
  = match Prim2SF x with
    | S754_zero _ => zero
    | _ => x
    end.
Proof.
  pose proof (SF2Prim_Prim2SF x) as Hx.
  pose proof (Prim2SF_valid x) as Hvalid.
  unfold Number_toString.
  destruct (Prim2SF x) as [neg|neg| |neg m e] eqn:Hsf.
  - reflexivity.
  - rewrite <- Hx. now destruct neg.
  - rewrite <- Hx. reflexivity.
  - simpl in Hvalid.
    pose proof (shortest_decimal_denotes m e Hvalid) as Hden.
    destruct (shortest_decimal m e) as [s p].
    unfold denotes in Hden. apply spec_float_eqb_eq in Hden. simpl in Hden.
    pose proof (round_decimal_finite_pos _ _ _ _ _ _ Hden) as Hs.
    destruct (render_decimal_parse s p Hs)
      as (Hplain & Hstart & s' & p' & Hparse & Hround).
    rewrite StringToNumber_plain.
    + rewrite (decimal_literal_rendered neg _ s' p' Hstart Hparse).
      rewrite Hround, (round_decimal_sign neg m e s p Hden). exact Hx.
    + rewrite all_plain_app, Hplain. now destruct neg.
    + destruct neg; [discriminate|]. simpl.
      destruct (render_decimal s p); [discriminate|discriminate].
Qed.

(** *** Arithmetic *)

Lemma SFmul_comm (x y : spec_float) : SFmul prec emax x y = SFmul prec emax y x.
Proof.
  destruct x as [a|a| |a m e], y as [b|b| |b m' e']; simpl;
    try reflexivity; try (now rewrite xorb_comm).
  now rewrite xorb_comm, Pos.mul_comm, Z.add_comm.
Qed.

Lemma mul_comm (x y : float) : (x * y)%float = (y * x)%float.
Proof.
  apply Prim2SF_inj. rewrite !mul_spec. apply SFmul_comm.
Qed.

Lemma SFcompare_refl (x : spec_float) :
  x <> S754_nan -> SFcompare x x = Some Eq.
Proof.
  destruct x as [a|a| |a m e]; simpl; intros H.
  - reflexivity.
  - now destruct a.
  - now elim H.
  - rewrite Z.compare_refl, Pos.compare_cont_refl. now destruct a.
Qed.

Lemma is_nan_Prim2SF (x : float) :
  is_nan x = false <-> Prim2SF x <> S754_nan.
Proof.
  unfold is_nan. rewrite eqb_spec. unfold SFeqb. split.
  - intros H Hnan. rewrite Hnan in H. discriminate.
  - intros H. now rewrite (SFcompare_refl _ H).
Qed.

Lemma shr_1_nonneg (mrs : shr_record) :
  shr_nonneg mrs -> shr_nonneg (shr_1 mrs).
Proof.
  unfold shr_nonneg. destruct mrs as [m r s]. simpl.
  destruct m as [|[p|p|]|p]; simpl; lia.
Qed.

Lemma iter_shr_1_nonneg (p : positive) (mrs : shr_record) :
  shr_nonneg mrs -> shr_nonneg (iter_pos shr_1 p mrs).
Proof.
  revert mrs. induction p as [p IH|p IH|]; intros mrs H; simpl.
  - apply IH, IH, shr_1_nonneg, H.
  - apply IH, IH, H.
  - apply shr_1_nonneg, H.
Qed.

Lemma shr_fexp_nonneg (m e : Z) (l : location) :
  0 <= m -> shr_nonneg (fst (shr_fexp prec emax m e l)).
Proof.
  intros Hm. unfold shr_fexp, shr.
  assert (H0 : shr_nonneg (shr_record_of_loc m l)).
  { unfold shr_nonneg. now destruct l as [|[]]. }
  destruct (fexp prec emax (Zdigits2 m + e) - e); simpl; try assumption.
  now apply iter_shr_1_nonneg.
Qed.

Lemma round_nearest_even_nonneg (m : Z) (l : location) :
  0 <= m -> 0 <= round_nearest_even m l.
Proof.
  intros Hm. destruct l as [|[]]; simpl; try lia.
  destruct (Z.even m); lia.
Qed.

(** Rounding a non-negative mantissa never gives NaN. *)
Lemma binary_round_aux_not_nan (sx : bool) (mx ex : Z) (lx : location) :
  0 <= mx -> binary_round_aux prec emax sx mx ex lx <> S754_nan.
Proof.
  intros Hm. unfold binary_round_aux.
  pose proof (shr_fexp_nonneg mx ex lx Hm) as H1.
  destruct (shr_fexp prec emax mx ex lx) as [mrs' e'].
  unfold shr_nonneg in H1. simpl in H1.
  pose proof (round_nearest_even_nonneg _ (loc_of_shr_record mrs') H1) as Hr.
  pose proof (shr_fexp_nonneg _ e' loc_Exact Hr) as H2.
  destruct (shr_fexp prec emax _ e' loc_Exact) as [mrs'' e''].
  unfold shr_nonneg in H2. simpl in H2.
  destruct (shr_m mrs'') as [|p|p]; try discriminate.
  - now destruct (e'' <=? emax - prec).
  - lia.
Qed.

Lemma mul_two_not_nan (x : float) :
  is_nan x = false -> is_nan (x * 2)%float = false.
Proof.
  rewrite !is_nan_Prim2SF, mul_spec. intros Hx.
  change (Prim2SF 2) with (S754_finite false 4503599627370496 (-51)).
  destruct (Prim2SF x) as [a|a| |a m e]; try discriminate.
  - now elim Hx.
  - simpl. now apply binary_round_aux_not_nan.
Qed.

(** [Number(x.toString()) === x] for every number but NaN. *)
Lemma StringToNumber_toString_eqb (x : float) :
  is_nan x = false -> (StringToNumber (Number_toString x) =? x)%float = true.
Proof.
  intros Hnan. rewrite StringToNumber_toString.
  pose proof (SF2Prim_Prim2SF x) as Hx.
  destruct (Prim2SF x) as [a|a| |a m e] eqn:Hsf.
  - rewrite <- Hx. now destruct a.
  - unfold is_nan in Hnan. now destruct (x =? x)%float.
  - unfold is_nan in Hnan. now destruct (x =? x)%float.
  - unfold is_nan in Hnan. now destruct (x =? x)%float.
Qed.

Lemma StringToNumber_toString_eq (x : float) :
  x <> neg_zero -> StringToNumber (Number_toString x) = x.
Proof.
  intros Hz. rewrite StringToNumber_toString.
  pose proof (SF2Prim_Prim2SF x) as Hx.
  destruct (Prim2SF x) as [[|]| | |]; try reflexivity.
  - now elim Hz.
  - now rewrite <- Hx.
Qed.

End JSFacts.

(** ** Results stated by the lessons *)

Section Subsequences.
Context {A : Type}.

(** [subsequence l l']: [l] is [l'] with some elements left out, the
    others in the same order. *)
Inductive subsequence : list A -> list A -> Prop :=
| subsequence_nil : subsequence [] []
| subsequence_skip x l l' : subsequence l l' -> subsequence l (x :: l')
| subsequence_keep x l l' : subsequence l l' -> subsequence (x :: l) (x :: l').

Variable keep : A -> bool.

Lemma filter_subsequence (l : list A) : subsequence (filter keep l) l.
Proof.
  induction l as [|x l IH]; simpl.
  - constructor.
  - destruct (keep x); now constructor.
Qed.

Lemma subsequence_filter (l l' : list A) :
  subsequence l l' -> subsequence (filter keep l) (filter keep l').
Proof.
  induction 1 as [|x l l' _ IH|x l l' _ IH]; simpl.
  - constructor.
  - destruct (keep x); [now constructor | exact IH].
  - destruct (keep x); [now constructor | exact IH].
Qed.

Lemma filter_all (l : list A) :
  Forall (fun x => keep x = true) l -> filter keep l = l.
Proof.
  induction 1 as [|x l Hx _ IH]; simpl.
  - reflexivity.
  - now rewrite Hx, IH.
Qed.

(** Every subsequence made of kept elements only is within the filtered
    list: the filter leaves out nothing it should keep. *)
Lemma subsequence_kept_filter (l l' : list A) :
  subsequence l l' -> Forall (fun x => keep x = true) l ->
  subsequence l (filter keep l').
Proof.
  intros Hsub Hall.
  rewrite <- (filter_all l Hall).
  now apply subsequence_filter.
Qed.

End Subsequences.

Import JS.

(** C4: the snippet [let sum: number = 1 + 1; sum;] evaluates to the
    number 2. *)
Theorem sum_is_2 : BasicTypes.sum = VNumber 2.
Proof. reflexivity. Qed.

(** C1: [pluralize] appends 's' to every string and maps [undefined] to
    [undefined]; the exercise's array is ['cats', 'dogs', undefined]. *)
Theorem pluralize_goal :
  (forall s : string,
      FunctionOverloads.pluralize (VString s) = VString (s ++ "s")) /\
  FunctionOverloads.pluralize VUndefined = VUndefined /\
  [FunctionOverloads.cats; FunctionOverloads.dogs;
   FunctionOverloads.anUndefined]
  = [VString "cats"; VString "dogs"; VUndefined].
Proof.
  repeat split.
Qed.

(** C2: without [.toString()], [const s: string = double('6'); s;] holds
    the number 12 at run time (its [typeof] is 'number', not 'string'). *)
Theorem double_without_toString_6 :
  FunctionOverloads.WithoutToString.s = VNumber 12 /\
  typeof FunctionOverloads.WithoutToString.s = "number".
Proof.
  split; vm_compute; reflexivity.
Qed.

(** C3: the buggy [isNumber] answers true for the string 'oh no', so [n2]
    holds the string 'oh no'. *)
Theorem buggy_isNumber_oh_no :
  TypePredicatesInPractice.Buggy.isNumber (VString "oh no") = true /\
  TypePredicatesInPractice.Buggy.n2 = VString "oh no".
Proof.
  split; reflexivity.
Qed.

(** C7: [isString(s1)] is false for [s1 = undefined], so [s2] is the string
    'not a string', the exercise's goal. *)
Theorem isString_exercise_goal :
  TypePredicatesInPractice.isString TypePredicatesInPractice.s1 = false /\
  TypePredicatesInPractice.s2 = VString "not a string".
Proof.
  split; reflexivity.
Qed.

(** C6: [filterBelowAge users limit] is a subsequence of [users] (its
    elements come from the input, in their original order), it holds
    exactly the elements whose age is strictly below [limit], every
    subsequence of such elements is within it, and for the documented input
    the names of the result are ['Gabriel']. *)
Theorem filterBelowAge_exact :
  (forall (users : list GenericConstraints.User) (limit : number),
      subsequence (GenericConstraints.filterBelowAge users limit) users /\
      (forall u,
          In u (GenericConstraints.filterBelowAge users limit) <->
          In u users /\ (GenericConstraints.age u <? limit)%float = true) /\
      (forall l,
          subsequence l users ->
          Forall
            (fun u => (GenericConstraints.age u <? limit)%float = true) l ->
          subsequence l (GenericConstraints.filterBelowAge users limit))) /\
  map GenericConstraints.name GenericConstraints.youngUsers = ["Gabriel"].
Proof.
  split; [|reflexivity].
  intros users limit. unfold GenericConstraints.filterBelowAge.
  split; [apply filter_subsequence|split].
  - intros u. apply filter_In.
  - intros l Hsub Hall.
    now apply (subsequence_kept_filter
                 (fun user => (GenericConstraints.age user <? limit)%float)).
Qed.

(** C8: the function returned by [buildPath(prefix)] has the property
    [prefix] equal to the argument and maps [suffix] to
    '/' + prefix + '/' + suffix; [buildPath('courses')] gives
    ['courses', '/courses/regexes']. *)
Theorem buildPath_path :
  (forall prefix suffix : string,
      HybridTypes.prefix (HybridTypes.buildPath prefix) = prefix /\
      VString (HybridTypes.call (HybridTypes.buildPath prefix) suffix)
      = add (add (add (VString "/") (VString prefix)) (VString "/"))
          (VString suffix)) /\
  [HybridTypes.prefix HybridTypes.path;
   HybridTypes.call HybridTypes.path "regexes"]
  = ["courses"; "/courses/regexes"].
Proof.
  split; [intros prefix suffix; split|]; try reflexivity.
  simpl. f_equal. now rewrite !JSFacts.app_assoc.
Qed.

(** C10: [isAddress] is true exactly for an argument that is not
    [undefined]; the guarded conditional takes its then-branch exactly when
    the user's address is present; for the lesson's user the postal code
    read afterwards is '75010'. *)
Theorem isAddress_guard :
  (forall a : option TypePredicates.Address,
      TypePredicates.isAddress a = true <-> a <> None) /\
  (forall u : TypePredicates.User,
      match TypePredicates.address u with
      | Some a => TypePredicates.guarded_address u = Some a
      | None =>
          TypePredicates.guarded_address u
          = Some {| TypePredicates.postalCode := "unknown";
                    TypePredicates.country := "unknown" |}
      end) /\
  TypePredicates.guarded_postalCode TypePredicates.amir = Some "75010".
Proof.
  split; [|split].
  - intros [a|]; unfold TypePredicates.isAddress; simpl; split;
      intros H; try discriminate; try reflexivity; now elim H.
  - intros [nm [a|]]; reflexivity.
  - reflexivity.
Qed.


(** C9: the overloaded [double] maps a number [n] to [2 * n] and a string
    [s] to the decimal rendering of [Number(s) * 2]; the result has the type
    of the argument; and when [s] parses as a number (is not NaN),
    [Number(double(s)) === 2 * Number(s)].  The two numbers are even the
    same value, unless the product is [-0], which is written '0' and read
    back as [+0]. *)
Theorem double_overloaded (n : number) (s : string) :
  FunctionOverloads.double (VNumber n) = VNumber (2 * n) /\
  FunctionOverloads.double (VString s)
  = VString (Number_toString (Number (VString s) * 2)) /\
  typeof (FunctionOverloads.double (VNumber n)) = typeof (VNumber n) /\
  typeof (FunctionOverloads.double (VString s)) = typeof (VString s) /\
  (is_nan (Number (VString s)) = false ->
   strict_equals (VNumber (Number (FunctionOverloads.double (VString s))))
     (VNumber (2 * Number (VString s))) = true) /\
  ((2 * Number (VString s))%float <> neg_zero ->
   Number (FunctionOverloads.double (VString s))
   = (2 * Number (VString s))%float).
Proof.
  assert (Hs : FunctionOverloads.double (VString s)
               = VString (Number_toString (Number (VString s) * 2)))
    by reflexivity.
  split; [|split; [exact Hs|split; [reflexivity|split; [reflexivity|split]]]].
  - unfold FunctionOverloads.double, mul. simpl.
    now rewrite JSFacts.mul_comm.
  - intros Hnan. rewrite Hs. simpl.
    rewrite (JSFacts.mul_comm 2). apply JSFacts.StringToNumber_toString_eqb.
    now apply JSFacts.mul_two_not_nan.
  - intros Hz. rewrite Hs. simpl.
    rewrite (JSFacts.mul_comm 2) in *.
    now apply JSFacts.StringToNumber_toString_eq.
Qed.

(** [double] at the number 5 and at the string '6', which parses as a
    number: the lesson's [10] and ['12']. *)
Lemma double_overloaded_witness :
  is_nan (Number (VString "6")) = false /\
  FunctionOverloads.double (VNumber 5) = VNumber 10 /\
  FunctionOverloads.double (VString "6") = VString "12" /\
  strict_equals (VNumber (Number (FunctionOverloads.double (VString "6"))))
    (VNumber (2 * Number (VString "6"))) = true.
Proof.
  pose proof (double_overloaded 5%float "6") as (H1 & H2 & _ & _ & H3 & _).
  split; [reflexivity|]. split; [exact H1|]. split; [exact H2|].
  apply H3. reflexivity.
Defined.

(** ** More facts about binary64 numbers and lists *)

Module Binary64Facts.
Import JS Binary64.

Lemma iter_shr_1_exact (p : positive) (M : Z) :
  0 < M ->
  iter_pos shr_1 p (Build_shr_record (M * 2 ^ Zpos p) false false)
  = Build_shr_record M false false.
Proof.
  assert (Hstep : forall M, 0 < M ->
            shr_1 (Build_shr_record (M * 2) false false)
            = Build_shr_record M false false).
  { intros [|q|q] H; try lia. rewrite Z.mul_comm. reflexivity. }
  revert M. induction p as [p IH|p IH|]; intros M HM.
  - cbn [iter_pos].
    replace (M * 2 ^ Zpos p~1) with (M * 2 ^ Zpos p * 2 ^ Zpos p * 2).
    + assert (H1 : 0 < 2 ^ Zpos p) by (apply Z.pow_pos_nonneg; lia).
      rewrite Hstep by (apply Z.mul_pos_pos; [apply Z.mul_pos_pos|]; lia).
      rewrite IH by (apply Z.mul_pos_pos; lia). now apply IH.
    + rewrite (Pos2Z.inj_xI p), Z.pow_add_r, Z.pow_mul_r by lia.
      change (2 ^ 2) with 4. change (2 ^ 1) with 2.
      replace (4 ^ Zpos p) with (2 ^ Zpos p * 2 ^ Zpos p)
        by (rewrite <- Z.pow_mul_l; reflexivity).
      generalize (2 ^ Zpos p). intros. ring.
  - cbn [iter_pos].
    replace (M * 2 ^ Zpos p~0) with (M * 2 ^ Zpos p * 2 ^ Zpos p).
    + assert (H1 : 0 < 2 ^ Zpos p) by (apply Z.pow_pos_nonneg; lia).
      rewrite IH by (apply Z.mul_pos_pos; lia). now apply IH.
    + rewrite (Pos2Z.inj_xO p), Z.pow_mul_r by lia.
      change (2 ^ 2) with 4.
      replace (4 ^ Zpos p) with (2 ^ Zpos p * 2 ^ Zpos p)
        by (rewrite <- Z.pow_mul_l; reflexivity).
      generalize (2 ^ Zpos p). intros. ring.
  - cbn [iter_pos]. change (2 ^ 1) with 2. now apply Hstep.
Qed.

Lemma Zdigits2_mul_pow2 (m : positive) (j : Z) :
  0 <= j -> Zdigits2 (Zpos m * 2 ^ j) = Zpos (digits2_pos m) + j.
Proof.
  intros Hj.
  assert (Hpos : 0 < Zpos m * 2 ^ j).
  { apply Z.mul_pos_pos; [lia|]. now apply Z.pow_pos_nonneg. }
  pose proof (Z.log2_mul_pow2 (Zpos m) j ltac:(lia) Hj) as Hlog.
  destruct (Zpos m * 2 ^ j) as [|q|q]; try lia.
  simpl Zdigits2. rewrite !JSFacts.digits2_log2. lia.
Qed.

(** A mantissa that is a canonical one times a power of two rounds to the
    canonical one: nothing is lost. *)
Lemma binary_round_aux_exact (s : bool) (m : positive) (j e : Z) :
  0 <= j -> canonical_mantissa prec emax m e = true ->
  binary_round_aux prec emax s (Zpos m * 2 ^ j) (e - j) loc_Exact
  = if e <=? emax - prec then S754_finite s m e else S754_infinity s.
Proof.
  intros Hj Hcan. unfold canonical_mantissa in Hcan. apply Z.eqb_eq in Hcan.
  assert (Hfirst : shr_fexp prec emax (Zpos m * 2 ^ j) (e - j) loc_Exact
                   = (Build_shr_record (Zpos m) false false, e)).
  { unfold shr_fexp. rewrite Zdigits2_mul_pow2 by assumption.
    replace (Zpos (digits2_pos m) + j + (e - j))
      with (Zpos (digits2_pos m) + e) by lia.
    rewrite Hcan. replace (e - (e - j)) with j by lia.
    cbn [shr_record_of_loc]. unfold shr.
    destruct j as [|p|p]; try lia.
    - rewrite Z.pow_0_r, Z.mul_1_r, Z.sub_0_r. reflexivity.
    - rewrite iter_shr_1_exact by lia. f_equal. lia. }
  assert (Hsecond : shr_fexp prec emax (Zpos m) e loc_Exact
                    = (Build_shr_record (Zpos m) false false, e)).
  { unfold shr_fexp. cbn [Zdigits2]. rewrite Hcan, Z.sub_diag. reflexivity. }
  unfold binary_round_aux. rewrite Hfirst.
  cbn [shr_m loc_of_shr_record round_nearest_even]. rewrite Hsecond.
  reflexivity.
Qed.


Lemma canonical_cases (m : positive) (e : Z) :
  canonical_mantissa prec emax m e = true <->
  (Zpos (digits2_pos m) = 53 /\ -1074 <= e)
  \/ (Zpos (digits2_pos m) < 53 /\ e = -1074).
Proof.
  unfold canonical_mantissa, fexp, SpecFloat.emin, prec, emax.
  rewrite Z.eqb_eq. lia.
Qed.

Lemma SFmul_two (x : spec_float) :
  valid_binary x = true -> SFmul prec emax x (Prim2SF 2) = SFdouble x.
Proof.
  change (Prim2SF 2) with (S754_finite false 4503599627370496 (-51)).
  destruct x as [s|s| |s m e]; cbn [SFmul SFdouble valid_binary];
    rewrite ?xorb_false_r; try reflexivity.
  intros Hvalid. unfold bounded in Hvalid. apply andb_prop in Hvalid.
  destruct Hvalid as [Hcan Hmax]. apply canonical_cases in Hcan.
  rewrite Pos2Z.inj_mul. change (Zpos 4503599627370496) with (2 ^ 52).
  destruct (Z.eqb_spec (Zpos (digits2_pos m)) prec) as [Hd|Hd];
    unfold prec in Hd.
  - replace (e + -51) with (e + 1 - 52) by lia.
    apply binary_round_aux_exact; [lia|]. apply canonical_cases. lia.
  - assert (He : e = -1074) by lia. subst e.
    change (2 ^ 52) with (2 * 2 ^ 51). rewrite Z.mul_assoc.
    replace (Zpos m * 2) with (Zpos m~0) by lia.
    change (-1074 + -51) with (-1074 - 51).
    rewrite binary_round_aux_exact; [reflexivity|lia|].
    apply canonical_cases. cbn [digits2_pos]. lia.
Qed.

Lemma SFmul_four (x : spec_float) :
  valid_binary x = true ->
  SFmul prec emax x (Prim2SF 4) = SFdouble (SFdouble x).
Proof.
  change (Prim2SF 4) with (S754_finite false 4503599627370496 (-50)).
  destruct x as [s|s| |s m e]; cbn [SFmul SFdouble valid_binary];
    rewrite ?xorb_false_r; try reflexivity.
  intros Hvalid. unfold bounded in Hvalid. apply andb_prop in Hvalid.
  destruct Hvalid as [Hcan Hmax]. apply canonical_cases in Hcan.
  apply Z.leb_le in Hmax. unfold emax, prec in Hmax.
  rewrite Pos2Z.inj_mul. change (Zpos 4503599627370496) with (2 ^ 52).
  destruct (Z.eqb_spec (Zpos (digits2_pos m)) prec) as [Hd|Hd].
  - pose proof Hd as Hd53. unfold prec in Hd53.
    replace (e + -50) with (e + 2 - 52) by lia.
    rewrite binary_round_aux_exact; [|lia|apply canonical_cases; lia].
    destruct (Z.leb_spec (e + 1) (emax - prec)) as [H1|H1];
      cbn [SFdouble]; unfold emax, prec in H1.
    + rewrite (proj2 (Z.eqb_eq _ _) Hd).
      replace (e + 1 + 1) with (e + 2) by lia. reflexivity.
    + replace (e + 2 <=? emax - prec) with false
        by (symmetry; apply Z.leb_gt; unfold emax, prec; lia). reflexivity.
  - unfold prec in Hd.
    assert (He : e = -1074) by lia. subst e. cbn [SFdouble digits2_pos].
    rewrite Pos2Z.inj_succ.
    destruct (Z.eqb_spec (Z.succ (Zpos (digits2_pos m))) prec) as [Hd'|Hd'];
      unfold prec in Hd'.
    + change (2 ^ 52) with (2 * 2 ^ 51). rewrite Z.mul_assoc.
      replace (Zpos m * 2) with (Zpos m~0) by lia.
      change (-1074 + -50) with (-1074 + 1 - 51).
      rewrite binary_round_aux_exact; [reflexivity|lia|].
      apply canonical_cases. cbn [digits2_pos]. lia.
    + change (2 ^ 52) with (4 * 2 ^ 50). rewrite Z.mul_assoc.
      replace (Zpos m * 4) with (Zpos m~0~0) by lia.
      change (-1074 + -50) with (-1074 - 50).
      rewrite binary_round_aux_exact; [reflexivity|lia|].
      apply canonical_cases. cbn [digits2_pos]. lia.
Qed.

Lemma SFadd_diag (x : spec_float) :
  valid_binary x = true -> SFadd prec emax x x = SFdouble x.
Proof.
  destruct x as [s|s| |s m e]; cbn [SFadd SFdouble valid_binary];
    try (now destruct s); try (intros _; reflexivity).
  intros Hvalid. unfold bounded in Hvalid. apply andb_prop in Hvalid.
  destruct Hvalid as [Hcan Hmax]. apply canonical_cases in Hcan.
  rewrite Z.min_id. unfold shl_align at 1 2. rewrite Z.sub_diag. cbn [fst].
  assert (Hsum : cond_Zopp s (Zpos m) + cond_Zopp s (Zpos m)
                 = cond_Zopp s (Zpos m~0)) by (destruct s; simpl; lia).
  rewrite Hsum.
  assert (Hnorm : binary_normalize prec emax (cond_Zopp s (Zpos m~0)) e false
                  = binary_round prec emax s (m~0)%positive e)
    by now destruct s.
  rewrite Hnorm. unfold binary_round.
  assert (Halign : shl_align (m~0)%positive e
                     (fexp prec emax (Zpos (digits2_pos m~0) + e))
                   = ((m~0)%positive, e)).
  { unfold shl_align, fexp, SpecFloat.emin, prec, emax. cbn [digits2_pos].
    rewrite Pos2Z.inj_succ.
    destruct (Z.max (Z.succ (Zpos (digits2_pos m)) + e - 53)
                (3 - 1024 - 53) - e) eqn:Hdiff; try reflexivity.
    lia. }
  rewrite Halign.
  destruct (Z.eqb_spec (Zpos (digits2_pos m)) prec) as [Hd|Hd];
    unfold prec in Hd.
  - replace (Zpos m~0) with (Zpos m * 2 ^ 1) by lia.
    replace e with (e + 1 - 1) at 1 by lia.
    apply binary_round_aux_exact; [lia|]. apply canonical_cases. lia.
  - assert (He : e = -1074) by lia. subst e.
    replace (Zpos m~0) with (Zpos m~0 * 2 ^ 0) by lia.
    change (-1074) with (-1074 - 0) at 1.
    rewrite binary_round_aux_exact; [reflexivity|lia|].
    apply canonical_cases. cbn [digits2_pos]. lia.
Qed.

(** Doubling is exact: [x * 2] is [x + x]. *)
Lemma mul_two_add (x : float) : (x * 2)%float = (x + x)%float.
Proof.
  apply Prim2SF_inj. rewrite mul_spec, add_spec.
  unfold SF64mul, SF64add.
  now rewrite SFmul_two, SFadd_diag by apply Prim2SF_valid.
Qed.

(** Doubling twice is multiplying by four. *)
Lemma mul_two_two (x : float) : (x * 2 * 2)%float = (x * 4)%float.
Proof.
  apply Prim2SF_inj. rewrite !mul_spec. unfold SF64mul.
  rewrite <- mul_spec.
  rewrite SFmul_two by apply Prim2SF_valid.
  rewrite mul_spec. unfold SF64mul.
  now rewrite SFmul_two, SFmul_four by apply Prim2SF_valid.
Qed.


(** *** The order of numbers *)

Lemma SFcompare_rank (x y : spec_float) :
  x <> S754_nan -> y <> S754_nan ->
  match SFcompare x y with
  | Some Lt => rank_lt (SFrank x) (SFrank y)
  | Some Eq => SFrank x = SFrank y
  | Some Gt => rank_lt (SFrank y) (SFrank x)
  | None => False
  end.
Proof.
  intros Hx Hy.
  destruct x as [s|s| |s m e], y as [s'|s'| |s' m' e'];
    try (now elim Hx); try (now elim Hy); clear Hx Hy;
    try (destruct s); try (destruct s'); cbn [SFcompare SFrank rank_lt];
    try reflexivity; try lia.
  - destruct (Z.compare_spec e e') as [He|He|He]; cbn [CompOpp]; try lia.
    subst e'. fold (Pos.compare m m').
    destruct (Pos.compare_spec m m') as [Hm|Hm|Hm]; cbn [CompOpp];
      try (subst; reflexivity); lia.
  - destruct (Z.compare_spec e e') as [He|He|He]; try lia.
    subst e'. fold (Pos.compare m m').
    destruct (Pos.compare_spec m m') as [Hm|Hm|Hm];
      try (subst; reflexivity); lia.
Qed.

Lemma SFltb_rank (x y : spec_float) :
  SFltb x y = true ->
  x <> S754_nan /\ y <> S754_nan /\ rank_lt (SFrank x) (SFrank y).
Proof.
  unfold SFltb. intros H.
  assert (Hx : x <> S754_nan) by (intros ->; discriminate).
  assert (Hy : y <> S754_nan) by (intros ->; now destruct x).
  pose proof (SFcompare_rank x y Hx Hy) as Hr.
  destruct (SFcompare x y) as [[| |]|]; try discriminate. now repeat split.
Qed.

Lemma SFleb_rank (x y : spec_float) :
  SFleb x y = true ->
  y <> S754_nan /\
  (rank_lt (SFrank x) (SFrank y) \/ SFrank x = SFrank y).
Proof.
  unfold SFleb. intros H.
  assert (Hx : x <> S754_nan) by (intros ->; discriminate).
  assert (Hy : y <> S754_nan) by (intros ->; now destruct x).
  pose proof (SFcompare_rank x y Hx Hy) as Hr.
  destruct (SFcompare x y) as [[| |]|]; try discriminate; auto.
Qed.

Lemma rank_SFltb (x y : spec_float) :
  x <> S754_nan -> y <> S754_nan -> rank_lt (SFrank x) (SFrank y) ->
  SFltb x y = true.
Proof.
  intros Hx Hy Hlt. unfold SFltb.
  pose proof (SFcompare_rank x y Hx Hy) as Hr.
  destruct (SFrank x) as [[a b] c] eqn:Ex, (SFrank y) as [[a' b'] c'] eqn:Ey.
  destruct (SFcompare x y) as [[| |]|]; try reflexivity; try (now elim Hr).
  - injection Hr as -> -> ->. unfold rank_lt in Hlt. lia.
  - unfold rank_lt in *. lia.
Qed.

(** Below a limit is below every larger limit. *)
Lemma ltb_leb_trans (a l1 l2 : float) :
  (a <? l1)%float = true -> (l1 <=? l2)%float = true ->
  (a <? l2)%float = true.
Proof.
  rewrite !ltb_spec, leb_spec. intros H1 H2.
  apply SFltb_rank in H1. destruct H1 as (Ha & Hl1 & H1).
  apply SFleb_rank in H2. destruct H2 as (Hl2 & H2).
  apply rank_SFltb; try assumption.
  destruct (SFrank (Prim2SF a)) as [[x1 x2] x3],
           (SFrank (Prim2SF l1)) as [[y1 y2] y3],
           (SFrank (Prim2SF l2)) as [[z1 z2] z3].
  destruct H2 as [H2|H2].
  - unfold rank_lt in *. lia.
  - injection H2 as <- <- <-. exact H1.
Qed.

Lemma ltb_nan_r (a : float) : (a <? nan)%float = false.
Proof.
  rewrite ltb_spec. change (Prim2SF nan) with S754_nan.
  unfold SFltb. now destruct (Prim2SF a).
Qed.

Lemma ltb_nan_l (l : float) : (nan <? l)%float = false.
Proof.
  rewrite ltb_spec. change (Prim2SF nan) with S754_nan. reflexivity.
Qed.


(** *** Lists and NaN *)

Lemma filter_narrow {A : Type} (p q : A -> bool) (l : list A) :
  (forall x, p x = true -> q x = true) ->
  filter p (filter q l) = filter p l.
Proof.
  intros Hpq. induction l as [|x l IH]; simpl; [reflexivity|].
  destruct (q x) eqn:Hq; simpl.
  - now rewrite IH.
  - destruct (p x) eqn:Hp; [|exact IH].
    rewrite (Hpq x Hp) in Hq. discriminate.
Qed.

Lemma is_nan_true (x : float) : is_nan x = true -> x = nan.
Proof.
  intros H. rewrite <- (SF2Prim_Prim2SF x).
  destruct (Prim2SF x) eqn:Hsf; try reflexivity;
    assert (Hn : is_nan x = false)
      by (apply JSFacts.is_nan_Prim2SF; rewrite Hsf; discriminate);
    rewrite Hn in H; discriminate.
Qed.

Lemma filter_map {A B : Type} (f : A -> B) (p : B -> bool) (l : list A) :
  filter p (map f l) = map f (filter (fun x => p (f x)) l).
Proof.
  induction l as [|x l IH]; simpl; [reflexivity|].
  destruct (p (f x)); simpl; now rewrite IH.
Qed.

End Binary64Facts.

(** ** Further results on the lessons' functions *)

(** X1: [double(n)] is [n + n] for every number [n]: doubling never rounds. *)
Theorem double_is_add (n : number) :
  VNumber (TypeofOperator.double n) = TypeofOperator.add n n.
Proof.
  unfold TypeofOperator.double, TypeofOperator.add, mul. simpl.
  now rewrite Binary64Facts.mul_two_add.
Qed.

(** X2: [quadruple(n)] is [double(double(n))] for every number [n], also
    for NaN, the infinities, the zeros, and past the largest number. *)
Theorem quadruple_double_double (n : number) :
  TypeofOperator.quadruple n
  = TypeofOperator.double (TypeofOperator.double n).
Proof.
  unfold TypeofOperator.double, TypeofOperator.quadruple, mul. simpl.
  symmetry. apply Binary64Facts.mul_two_two.
Qed.

(** X3: [doubleIfNumber] never changes the run-time type of its argument:
    it doubles a number and returns any other value as it is. *)
Theorem doubleIfNumber_typeof (v : value) :
  typeof (TypeofOperator.doubleIfNumber v) = typeof v /\
  (forall n, v = VNumber n ->
     TypeofOperator.doubleIfNumber v = VNumber (TypeofOperator.double n)) /\
  ((typeof v =? "number")%string = false ->
   TypeofOperator.doubleIfNumber v = v).
Proof.
  unfold TypeofOperator.doubleIfNumber.
  split; [|split].
  - now destruct v.
  - intros n ->. reflexivity.
  - now intros ->.
Qed.

(** X4: applying the overloaded [double] twice to a string gives the
    rendering of four times its number. *)
Theorem double_twice (s : string) :
  FunctionOverloads.double (FunctionOverloads.double (VString s))
  = VString (Number_toString (Number (VString s) * 4)).
Proof.
  assert (Hd : forall t, FunctionOverloads.double (VString t)
                         = VString (Number_toString (StringToNumber t * 2)))
    by reflexivity.
  rewrite !Hd, JSFacts.StringToNumber_toString.
  unfold Number. cbn [ToNumber]. rewrite <- Binary64Facts.mul_two_two.
  set (y := (StringToNumber s * 2)%float).
  pose proof (SF2Prim_Prim2SF y) as Hy.
  destruct (Prim2SF y) as [[|]| | |]; try reflexivity; now rewrite <- Hy.
Qed.

(** X5: for a string that does not parse as a number, the overloaded
    [double] returns the string 'NaN'. *)
Theorem double_not_numeric (s : string) :
  is_nan (Number (VString s)) = true ->
  FunctionOverloads.double (VString s) = VString "NaN".
Proof.
  intros H. apply Binary64Facts.is_nan_true in H.
  change (Number (VString s)) with (StringToNumber s) in H.
  change (FunctionOverloads.double (VString s))
    with (VString (Number_toString (StringToNumber s * 2))).
  rewrite H. reflexivity.
Qed.

(** The string 'abc' does not parse as a number. *)
Lemma double_not_numeric_witness :
  is_nan (Number (VString "abc")) = true /\
  FunctionOverloads.double (VString "abc") = VString "NaN".
Proof.
  split; [reflexivity|]. apply (double_not_numeric "abc"). reflexivity.
Defined.

Section Generic.
Context {T : Type} `{GenericFilter.HasAge T}.

(** X6: filtering below a limit and then below a smaller (or equal) limit
    is filtering below the smaller limit. *)
Theorem filterBelowAge_narrow (things : list T) (l1 l2 : number) :
  (l1 <=? l2)%float = true ->
  GenericFilter.filterBelowAge (GenericFilter.filterBelowAge things l2) l1
  = GenericFilter.filterBelowAge things l1.
Proof.
  intros Hle. unfold GenericFilter.filterBelowAge.
  apply Binary64Facts.filter_narrow. intros x Hx.
  now apply (Binary64Facts.ltb_leb_trans _ l1).
Qed.

(** X7: with the limit NaN nothing is kept, and a thing whose age is NaN is
    never kept, whatever the limit. *)
Theorem filterBelowAge_nan (things : list T) (limit : number) :
  GenericFilter.filterBelowAge things nan = [] /\
  (forall thing, is_nan (GenericFilter.age thing) = true ->
     ~ In thing (GenericFilter.filterBelowAge things limit)).
Proof.
  unfold GenericFilter.filterBelowAge. split.
  - induction things as [|x l IH]; simpl; [reflexivity|].
    now rewrite Binary64Facts.ltb_nan_r.
  - intros thing Hnan Hin. apply filter_In in Hin. destruct Hin as [_ Hlt].
    rewrite (Binary64Facts.is_nan_true _ Hnan), Binary64Facts.ltb_nan_l
      in Hlt.
    discriminate.
Qed.

End Generic.

(** The lesson's cats, filtered below 20 and then below 10. *)
Lemma filterBelowAge_narrow_witness :
  (10 <=? 20)%float = true /\
  map GenericFilter.Cat.name
    (GenericFilter.filterBelowAge
       (GenericFilter.filterBelowAge GenericFilter.allCats 20%float)
       10%float)
  = ["Ms. Fluff"].
Proof.
  split; [reflexivity|].
  rewrite (filterBelowAge_narrow GenericFilter.allCats 10%float 20%float);
    reflexivity.
Defined.

(** X8: with the correct [isNumber], the narrowed [n2] is a number for every
    [n]: [n] itself when it is a number, else 0. *)
Theorem isNumber_narrows (n : value) :
  typeof (TypePredicatesNarrowing.n2 n) = "number" /\
  (TypePredicatesInPractice.isNumber n = true ->
   TypePredicatesNarrowing.n2 n = n) /\
  (TypePredicatesInPractice.isNumber n = false ->
   TypePredicatesNarrowing.n2 n = VNumber 0).
Proof.
  unfold TypePredicatesNarrowing.n2, TypePredicatesInPractice.isNumber.
  split; [|split].
  - now destruct n.
  - now intros ->.
  - now intros ->.
Qed.

(** X9: [isString(s)] for [s: unknown] is true exactly when [s] is a
    string, and [isString(s) ? s : 'not a string'] is always a string. *)
Theorem isString_unknown (s : TypePredicatesNarrowing.unknown) :
  (TypePredicatesNarrowing.isString s = true <->
   exists str, s = TypePredicatesNarrowing.UPrimitive (VString str)) /\
  exists str,
    TypePredicatesNarrowing.s2 s
    = TypePredicatesNarrowing.UPrimitive (VString str).
Proof.
  unfold TypePredicatesNarrowing.s2, TypePredicatesNarrowing.isString.
  destruct s as [[| |b|n|str]|props]; cbn; split;
    try (split; [discriminate|intros [str' Hs]; discriminate]);
    try (now eexists).
  split; [now eexists|reflexivity].
Qed.

(** X10: [isAlbum] is true exactly for an album that is not [undefined],
    and after the conditional [album] is never [undefined]: it is the
    artist's top-selling album when there is one, else the unknown album. *)
Theorem isAlbum_guard (artist : TypePredicatesExercise.Artist) :
  (TypePredicatesExercise.isAlbum
     (TypePredicatesExercise.topSellingAlbum artist) = true <->
   TypePredicatesExercise.topSellingAlbum artist <> None) /\
  exists a, TypePredicatesExercise.album artist = Some a /\
    match TypePredicatesExercise.topSellingAlbum artist with
    | Some top => a = top
    | None => a = {| TypePredicatesExercise.name := "unknown";
                     TypePredicatesExercise.copiesSold := 0%float |}
    end.
Proof.
  destruct artist as [nm [top|]]; unfold TypePredicatesExercise.album; cbn.
  - split; [split; [discriminate|reflexivity]|]. now exists top.
  - split; [split; [discriminate|intros Hn; now elim Hn]|]. now eexists.
Qed.

(** X11: the two overloads of [double] agree: doubling the rendering of a
    number gives the rendering of its double. *)
Theorem double_overloads_agree (n : number) :
  FunctionOverloads.double (VString (ToString (VNumber n)))
  = VString (ToString (FunctionOverloads.double (VNumber n))).
Proof.
  change (FunctionOverloads.double (VNumber n)) with (VNumber (n * 2)).
  cbn [ToString].
  change (FunctionOverloads.double (VString (Number_toString n)))
    with (VString (Number_toString
                     (StringToNumber (Number_toString n) * 2))).
  rewrite JSFacts.StringToNumber_toString.
  pose proof (SF2Prim_Prim2SF n) as Hn.
  destruct (Prim2SF n) as [[|]| | |]; try reflexivity; now rewrite <- Hn.
Qed.

(** X12: filtering an array of users and cats keeps the users and the cats
    that filtering each kind alone keeps. *)
Theorem filterBelowAge_union (users : list GenericFilter.User.User)
  (cats : list GenericFilter.Cat.Cat) (limit : number) :
  GenericFilter.filterBelowAge (map inl users ++ map inr cats)%list limit
  = (map inl (GenericFilter.filterBelowAge users limit)
     ++ map inr (GenericFilter.filterBelowAge cats limit))%list.
Proof.
  unfold GenericFilter.filterBelowAge.
  now rewrite filter_app, !Binary64Facts.filter_map.
Qed.
